(** * veroviz: [generateNodes] and its distribution samplers

    A shallow embedding of [veroviz/generateNodes.py].  The module draws
    random coordinates (uniformly in a polygon, normally around a centre,
    normally inside a polygon, uniformly near a road) and hands them to the
    node constructor.

    Python floats are IEEE binary64 numbers: they are Rocq's primitive
    floats.  Python integers are [Z].  A coordinate is a Python list of
    floats, a polygon a list of coordinates.  The samplers are typed with
    these, and so are the values of the parameter dictionary: arguments
    of other shapes than the docstrings give are outside the embedding.

    The code is effectful: it reads the process-wide random generator,
    prints, and calls collaborators that live in other modules of the
    package (validation, geometry, the road-snap adapter, the node
    constructor).  A computation is a function of the state [G] of that
    outside world; it gives back an outcome, the new state, and the list of
    calls it made to the outside, in order. *)

From Stdlib Require Import ZArith String List Floats Lia.
From stdpp Require Import strings list.
Import ListNotations.

Local Open Scope string_scope.
Local Open Scope list_scope.
Local Open Scope Z_scope.

(** ** Values *)

(** [[lat, lon]] (or [[lat, lon, alt]]). *)
Definition loc : Type := list float.
(** [[[lat1, lon1], [lat2, lon2], ...]]. *)
Definition polygon : Type := list loc.
(** [tripy.earclip] gives triples of points. *)
Definition triangle : Type := list loc.

(** The Python values that travel through the positional argument list
    of the road-snap adapter. *)
Inductive pyval : Type :=
| PyNone
| PyStr (s : string)
| PyLocs (ps : list loc)
| PyDict (d : list (string * string)).

(** [nodeDistribArgs], the dictionary of a distribution's parameters.  The
    module reads four of its keys and hands what it finds to a sampler,
    unchecked.  A key is absent ([None]) or holds a value of the shape the
    docstring of [generateNodes] gives for it: a list of coordinates, a
    coordinate, a number.  Keys the module never reads are left out. *)
Record distribArgs : Type := {
  key_boundingRegion : option polygon;
  key_center : option loc;
  key_stdDev : option float;
  key_distToRoad : option float
}.

(** Exceptions.  The first five are Python's own; the last three are the
    error kinds the collaborators may report. *)
Inductive exn : Type :=
| IndexError
| KeyError (key : string)
| ValueError
| TypeError
| UnboundLocalError (name : string)
| ConfigurationError (msg : string)
| AdapterError (msg : string)
| SamplingExhausted.

(** How a computation ends: with a value, with an exception, or not within
    the iteration budget given to its [while] loops. *)
Inductive outcome (A : Type) : Type :=
| Ret (a : A)
| Raise (e : exn)
| Timeout.
Arguments Ret {A} a.
Arguments Raise {A} e.
Arguments Timeout {A}.

(** The calls a computation makes to the outside world. *)
Inductive event : Type :=
| EvValidate
| EvPrint (msg : string)
| EvEarclip (boundingRegion : polygon)
| EvRandomPick (coefficients : list float)
| EvUniform (low high : float)
| EvNormal (mean scale : float)
| EvSnap (args : list pyval) (result : outcome (list loc))
| EvCreateNodes (locs : list loc).

Definition is_earclip (ev : event) : bool :=
  match ev with EvEarclip _ => true | _ => false end.
Definition is_snap (ev : event) : bool :=
  match ev with EvSnap _ _ => true | _ => false end.
Definition is_create (ev : event) : bool :=
  match ev with EvCreateNodes _ => true | _ => false end.
(** A draw from the random generator, directly or through [randomPick]. *)
Definition is_random_draw (ev : event) : bool :=
  match ev with
  | EvRandomPick _ | EvUniform _ _ | EvNormal _ _ => true
  | _ => false
  end.
(** Any step of sampling: triangulation, a random draw, a road snap. *)
Definition is_sampling (ev : event) : bool :=
  is_earclip ev || is_random_draw ev || is_snap ev.

Definition is_pick (ev : event) : bool :=
  match ev with EvRandomPick _ => true | _ => false end.

Definition count_events (p : event -> bool) (t : list event) : nat :=
  length (List.filter p t).

(** ** The computation monad *)

Section Monad.
Context {G : Type}.

Definition M (A : Type) : Type := G -> outcome A * G * list event.

Definition ret {A} (a : A) : M A := fun g => (Ret a, g, []).
Definition raise {A} (e : exn) : M A := fun g => (Raise e, g, []).
Definition timeout {A} : M A := fun g => (Timeout, g, []).

Definition bind {A B} (m : M A) (k : A -> M B) : M B :=
  fun g =>
    match m g with
    | (Ret a, g1, t1) =>
        match k a g1 with
        | (r, g2, t2) => (r, g2, t1 ++ t2)
        end
    | (Raise e, g1, t1) => (Raise e, g1, t1)
    | (Timeout, g1, t1) => (Timeout, g1, t1)
    end.

(** A call to the outside: [f] is what the callee does to the world,
    [ev] the record of the call. *)
Definition call {A} (ev : outcome A -> event) (f : G -> outcome A * G) : M A :=
  fun g => match f g with (r, g') => (r, g', [ev r]) end.

(** [for x in xs: s = body(x, s)]. *)
Fixpoint for_each {A St} (xs : list A) (body : A -> St -> M St) (s : St) : M St :=
  match xs with
  | [] => ret s
  | x :: xs' => bind (body x s) (for_each xs' body)
  end.

(** [for i in range(n): s = body(i, s)]. *)
Definition for_range {St} (n : nat) (body : nat -> St -> M St) (s : St) : M St :=
  for_each (seq 0 n) body s.

(** [while cond(s): s = body(s)], cut after [fuel] iterations. *)
Fixpoint while {St} (fuel : nat) (cond : St -> bool) (body : St -> M St) (s : St) : M St :=
  if cond s then
    match fuel with
    | O => timeout
    | S fuel' => bind (body s) (while fuel' cond body)
    end
  else ret s.

(** A computation that only makes calls satisfying [P], however it ends. *)
Definition emits {A} (P : event -> Prop) (m : M A) : Prop :=
  forall g r g' t, m g = (r, g', t) -> Forall P t.
End Monad.

Declare Scope py_scope.
Delimit Scope py_scope with py.
Notation "x <- c1 ;; c2" := (bind c1 (fun x => c2))
  (at level 100, c1 at next level, right associativity) : py_scope.
Local Open Scope py_scope.

(** ** Python operations *)

Section Python.
Context {G : Type}.

(** [l[i]] for an index that comes from [range]. *)
Definition index {A} (l : list A) (i : nat) : M (G:=G) A :=
  match l !! i with
  | Some x => ret x
  | None => raise IndexError
  end.

(** [l[i]] for any integer: a negative index counts from the end. *)
Definition index_Z {A} (l : list A) (i : Z) : M (G:=G) A :=
  if 0 <=? i then index l (Z.to_nat i)
  else if - Z.of_nat (length l) <=? i then index l (Z.to_nat (Z.of_nat (length l) + i))
  else raise IndexError.

(** [[a, b] = p]. *)
Definition unpack2 (p : loc) : M (G:=G) (float * float) :=
  match p with
  | [a; b] => ret (a, b)
  | _ => raise ValueError
  end.

(** [math.sqrt]: a negative argument is a domain error. *)
Definition math_sqrt (x : float) : M (G:=G) float :=
  if (x <? 0)%float then raise ValueError else ret (PrimFloat.sqrt x).

(** [d[k]], for what the dictionary [d] holds at the key [k]. *)
Definition getitem {A} (k : string) (held : option A) : M (G:=G) A :=
  match held with
  | Some v => ret v
  | None => raise (KeyError k)
  end.
End Python.

(** [k in d], for the four keys the dictionary is modelled with. *)
Definition contains (d : distribArgs) (k : string) : bool :=
  if String.eqb k "boundingRegion" then bool_decide (is_Some (key_boundingRegion d))
  else if String.eqb k "center" then bool_decide (is_Some (key_center d))
  else if String.eqb k "stdDev" then bool_decide (is_Some (key_stdDev d))
  else if String.eqb k "distToRoad" then bool_decide (is_Some (key_distToRoad d))
  else false.

(** [nodeDistrib == tag]; [nodeDistrib] may be [None]. *)
Definition tag_is (nodeDistrib : option string) (tag : string) : bool :=
  match nodeDistrib with
  | Some s => String.eqb s tag
  | None => false
  end.

(** ** Collaborators

    Everything the module imports: numpy's generator, [tripy], and the
    package's own validation, geometry, road-snap and node-construction
    modules.  The geometry functions are pure; the others act on the
    outside world and may fail.  [privGetSnapLocBatch] is called with a
    list of positional arguments, as Python passes them. *)

(** The keyword arguments of [generateNodes] that only travel to the
    collaborators. *)
Record nodeOptions (Nodes : Type) : Type := {
  initNodes : option Nodes;
  nodeType : option string;
  nodeName : option string;
  startNode : Z;
  incrementName : bool;
  incrementStart : Z;
  snapToRoad : bool;
  leafletIconPrefix : string;
  leafletIconType : string;
  leafletColor : string;
  leafletIconText : option string;
  cesiumIconType : string;
  cesiumColor : string;
  cesiumIconText : option string;
  dataProvider : pyval;
  dataProviderArgs : pyval
}.
Arguments initNodes {Nodes} _.
Arguments nodeType {Nodes} _.
Arguments nodeName {Nodes} _.
Arguments startNode {Nodes} _.
Arguments incrementName {Nodes} _.
Arguments incrementStart {Nodes} _.
Arguments snapToRoad {Nodes} _.
Arguments leafletIconPrefix {Nodes} _.
Arguments leafletIconType {Nodes} _.
Arguments leafletColor {Nodes} _.
Arguments leafletIconText {Nodes} _.
Arguments cesiumIconType {Nodes} _.
Arguments cesiumColor {Nodes} _.
Arguments cesiumIconText {Nodes} _.
Arguments dataProvider {Nodes} _.
Arguments dataProviderArgs {Nodes} _.

Class Collaborators (G Nodes : Type) : Type := {
  np_random_uniform : float -> float -> G -> outcome float * G;
  np_random_normal : float -> float -> G -> outcome float * G;
  randomPick : list float -> G -> outcome Z * G;
  tripy_earclip : polygon -> outcome (list triangle);
  areaOfTriangle : loc -> loc -> loc -> float;
  geoDistance2D : loc -> loc -> float;
  geoIsPointInPoly : loc -> polygon -> bool;
  geoPointInDistance2D : loc -> float -> float -> loc;
  privGetSnapLocBatch : list pyval -> G -> outcome (list loc) * G;
  valGenerateNodes :
    nodeOptions Nodes -> Z -> option string -> distribArgs ->
    G -> outcome (bool * string * string) * G;
  valCreateNodesFromLocs :
    list loc -> nodeOptions Nodes -> G -> outcome (bool * string * string) * G;
  privCreateNodesFromLocs : list loc -> nodeOptions Nodes -> G -> outcome Nodes * G;
  VRV_SETTING_SHOWWARNINGMESSAGE : bool
}.

(** ** The module *)

Section GenerateNodes.
Context {G Nodes : Type} {C : Collaborators G Nodes}.

Local Abbreviation M := (M (G:=G)).

(** The calls, each with its record. *)
Definition uniform (low high : float) : M float :=
  call (fun _ => EvUniform low high) (np_random_uniform low high).
Definition normal (mean scale : float) : M float :=
  call (fun _ => EvNormal mean scale) (np_random_normal mean scale).
Definition pick (coefficients : list float) : M Z :=
  call (fun _ => EvRandomPick coefficients) (randomPick coefficients).
Definition earclip (boundingRegion : polygon) : M (list triangle) :=
  call (fun _ => EvEarclip boundingRegion) (fun g => (tripy_earclip boundingRegion, g)).
Definition snap (args : list pyval) : M (list loc) :=
  call (EvSnap args) (privGetSnapLocBatch args).
Definition print (msg : string) : M unit :=
  call (fun _ => EvPrint msg) (fun g => (Ret tt, g)).

(** [_genNodesUniformTriangle(numNodes, triangle)] *)
Definition _genNodesUniformTriangle (numNodes : Z) (triangle : triangle) : M (list loc) :=
  v1 <- index triangle 0 ;;
  p1 <- unpack2 v1 ;;
  let '(lat1, lon1) := p1 in
  v2 <- index triangle 1 ;;
  p2 <- unpack2 v2 ;;
  let '(lat2, lon2) := p2 in
  v3 <- index triangle 2 ;;
  p3 <- unpack2 v3 ;;
  let '(lat3, lon3) := p3 in
  for_range (Z.to_nat numNodes) (fun _ locs =>
    rndR1 <- uniform 0 1 ;;
    rndR2 <- uniform 0 1 ;;
    a1 <- math_sqrt rndR1 ;;
    a2 <- math_sqrt rndR1 ;;
    a3 <- math_sqrt rndR1 ;;
    let rndLat := ((1 - a1) * lat1 + a2 * (1 - rndR2) * lat2 + a3 * rndR2 * lat3)%float in
    b1 <- math_sqrt rndR1 ;;
    b2 <- math_sqrt rndR1 ;;
    b3 <- math_sqrt rndR1 ;;
    let rndLon := ((1 - b1) * lon1 + b2 * (1 - rndR2) * lon2 + b3 * rndR2 * lon3)%float in
    ret (locs ++ [[rndLat; rndLon]])) [].

(** The area list of [_genNodesUniformBounded]. *)
Definition triangleAreas (lstTriangle : list triangle) : M (list float) :=
  for_range (length lstTriangle) (fun i lstArea =>
    t <- index lstTriangle i ;;
    a <- index t 0 ;;
    t <- index lstTriangle i ;;
    b <- index t 1 ;;
    t <- index lstTriangle i ;;
    c <- index t 2 ;;
    ret (lstArea ++ [areaOfTriangle a b c])) [].

(** [_genNodesUniformBounded(numNodes, boundingRegion)] *)
Definition _genNodesUniformBounded (numNodes : Z) (boundingRegion : polygon) : M (list loc) :=
  lstTriangle <- earclip boundingRegion ;;
  lstArea <- triangleAreas lstTriangle ;;
  for_range (Z.to_nat numNodes) (fun _ locs =>
    idx <- pick lstArea ;;
    tri <- index_Z lstTriangle idx ;;
    newLoc <- _genNodesUniformTriangle 1 tri ;;
    ret (locs ++ newLoc)) [].

(** [_genNodesNormalBounded(numNodes, boundingRegion, center, standardDeviation)] *)
Definition _genNodesNormalBounded (fuel : nat) (numNodes : Z) (boundingRegion : polygon)
    (center : loc) (standardDeviation : float) : M (list loc) :=
  for_range (Z.to_nat numNodes) (fun _ locs =>
    rndUniform <- uniform 0 360 ;;
    rndNormal <- normal 0 standardDeviation ;;
    let newLoc := geoPointInDistance2D center rndUniform rndNormal in
    newLoc <- while fuel
                (fun newLoc => negb (geoIsPointInPoly newLoc boundingRegion))
                (fun _ =>
                   rndUniform <- uniform 0 360 ;;
                   rndNormal <- normal 0 standardDeviation ;;
                   ret (geoPointInDistance2D center rndUniform rndNormal))
                newLoc ;;
    ret (locs ++ [newLoc])) [].

(** [_genNodesNormal(numNodes, center, standardDeviation)] *)
Definition _genNodesNormal (numNodes : Z) (center : loc) (standardDeviation : float)
    : M (list loc) :=
  for_range (Z.to_nat numNodes) (fun _ locs =>
    rndUniform <- uniform 0 360 ;;
    rndNormal <- normal 0 standardDeviation ;;
    let newLoc := geoPointInDistance2D center rndUniform rndNormal in
    ret (locs ++ [newLoc])) [].

(** The inner [for] loop of [_genNodesRoadBased]. *)
Definition keepCloseToRoad (distToRoad : float) (newLocs snapLocs locs : list loc)
    : M (list loc) :=
  for_range (length snapLocs) (fun i locs =>
    c <- index newLocs i ;;
    s <- index snapLocs i ;;
    if (geoDistance2D c s <=? distToRoad)%float then ret (locs ++ [c]) else ret locs) locs.

(** [_genNodesRoadBased(numNodes, boundingRegion, distToRoad, dataProvider,
    APIkey, databaseName)] *)
Definition _genNodesRoadBased (fuel : nat) (numNodes : Z) (boundingRegion : polygon)
    (distToRoad : float) (dataProvider APIkey databaseName : pyval) : M (list loc) :=
  while fuel
    (fun locs => Z.of_nat (length locs) <? numNodes)
    (fun locs =>
       newLocs <- _genNodesUniformBounded (numNodes - Z.of_nat (length locs)) boundingRegion ;;
       snapLocs <- snap [PyLocs newLocs; dataProvider; APIkey; databaseName] ;;
       keepCloseToRoad distToRoad newLocs snapLocs locs)
    [].

(** The [if]/[elif] chain of [generateNodes]; [None] when no branch
    assigns [locs]. *)
Definition generateNodes_locs (fuel : nat) (o : nodeOptions Nodes) (numNodes : Z)
    (nodeDistrib : option string) (nodeDistribArgs : distribArgs)
    : M (option (list loc)) :=
  if tag_is nodeDistrib "uniformBB" then
    boundingRegion <- getitem "boundingRegion" (key_boundingRegion nodeDistribArgs) ;;
    locs <- _genNodesUniformBounded numNodes boundingRegion ;;
    ret (Some locs)
  else if tag_is nodeDistrib "normal" then
    if negb (contains nodeDistribArgs "boundingRegion") then
      center <- getitem "center" (key_center nodeDistribArgs) ;;
      standardDeviation <- getitem "stdDev" (key_stdDev nodeDistribArgs) ;;
      locs <- _genNodesNormal numNodes center standardDeviation ;;
      ret (Some locs)
    else
      boundingRegion <- getitem "boundingRegion" (key_boundingRegion nodeDistribArgs) ;;
      center <- getitem "center" (key_center nodeDistribArgs) ;;
      standardDeviation <- getitem "stdDev" (key_stdDev nodeDistribArgs) ;;
      locs <- _genNodesNormalBounded fuel numNodes boundingRegion center standardDeviation ;;
      ret (Some locs)
  else if tag_is nodeDistrib "normalBB" then
    boundingRegion <- getitem "boundingRegion" (key_boundingRegion nodeDistribArgs) ;;
    center <- getitem "center" (key_center nodeDistribArgs) ;;
    standardDeviation <- getitem "stdDev" (key_stdDev nodeDistribArgs) ;;
    locs <- _genNodesNormalBounded fuel numNodes boundingRegion center standardDeviation ;;
    ret (Some locs)
  else if tag_is nodeDistrib "unifRoadBasedBB" then
    boundingRegion <- getitem "boundingRegion" (key_boundingRegion nodeDistribArgs) ;;
    distToRoad <- getitem "distToRoad" (key_distToRoad nodeDistribArgs) ;;
    locs <- _genNodesRoadBased fuel numNodes boundingRegion distToRoad
              (dataProvider o) (dataProviderArgs o) PyNone ;;
    ret (Some locs)
  else ret None.

(** [generateNodes(...)]: [None] is Python's bare [return]. *)
Definition generateNodes (fuel : nat) (o : nodeOptions Nodes) (numNodes : Z)
    (nodeDistrib : option string) (nodeDistribArgs : distribArgs)
    : M (option Nodes) :=
  v <- call (fun _ => EvValidate) (valGenerateNodes o numNodes nodeDistrib nodeDistribArgs) ;;
  let '(valFlag, errorMsg, warningMsg) := v in
  if negb valFlag then
    _ <- print errorMsg ;;
    ret None
  else
    _ <- (if VRV_SETTING_SHOWWARNINGMESSAGE && negb (String.eqb warningMsg EmptyString)
          then print warningMsg else ret tt) ;;
    locs <- generateNodes_locs fuel o numNodes nodeDistrib nodeDistribArgs ;;
    match locs with
    | None => raise (UnboundLocalError "locs")
    | Some locs =>
        nodes <- call (fun _ => EvCreateNodes locs) (privCreateNodesFromLocs locs o) ;;
        ret (Some nodes)
    end.

(** [createNodesFromLocs(locs, ...)] *)
Definition createNodesFromLocs (locs : list loc) (o : nodeOptions Nodes) : M (option Nodes) :=
  v <- call (fun _ => EvValidate) (valCreateNodesFromLocs locs o) ;;
  let '(valFlag, errorMsg, warningMsg) := v in
  if negb valFlag then
    _ <- print errorMsg ;;
    ret None
  else
    _ <- (if VRV_SETTING_SHOWWARNINGMESSAGE && negb (String.eqb warningMsg EmptyString)
          then print warningMsg else ret tt) ;;
    nodes <- call (fun _ => EvCreateNodes locs) (privCreateNodesFromLocs locs o) ;;
    ret (Some nodes).
End GenerateNodes.


(** ** The road-snap adapter of the specification *)

(** Modelled from the spec: [privGetSnapLocBatch] is defined in
    [veroviz/_getSnapLoc.py], which is not among the sources.  The
    specification gives its contract as
    [snapBatch(coordinates, provider, providerArgs) -> Coordinate[]]:
    three parameters.  Python binds positional arguments to parameters in
    order and refuses a call that brings more arguments than the function
    has parameters.  [nearest] is what the adapter does once its parameters
    are bound. *)
Definition snapBatch {G : Type}
    (nearest : list loc -> pyval -> pyval -> G -> outcome (list loc) * G)
    (args : list pyval) : G -> outcome (list loc) * G :=
  match args with
  | [PyLocs coordinates; provider; providerArgs] => nearest coordinates provider providerArgs
  | _ => fun g => (Raise TypeError, g)
  end.

(** ** A concrete world

    Collaborators that compute, for running the module on examples: a
    random generator that reads a fixed tape, fan triangulation, planar
    geometry, a road along the meridian [lon = 0.5]. *)

Module Demo.

(** The generator's state is its position on the tape. *)
Definition tape : list float :=
  [0.25; 0.5; 0.8125; 0.0625; 0.625; 0.875; 0.03125; 0.375]%float.

Definition unit_draw (n : nat) : float :=
  nth (n mod 8) tape 0%float.

Definition tape_uniform (low high : float) (n : nat) : outcome float * nat :=
  (Ret (low + (high - low) * unit_draw n)%float, S n).

Definition tape_normal (mean scale : float) (n : nat) : outcome float * nat :=
  if (scale <? 0)%float then (Raise ValueError, n)
  else (Ret (mean + scale * (4 * unit_draw n - 2))%float, S n).

Definition tape_pick (coefficients : list float) (n : nat) : outcome Z * nat :=
  match coefficients with
  | [] => (Raise (ConfigurationError "zero total area"), n)
  | _ => (Ret (Z.of_nat (n mod length coefficients)), S n)
  end.

Fixpoint fan (p0 : loc) (ps : list loc) : list triangle :=
  match ps with
  | p1 :: (p2 :: _) as rest => [p0; p1; p2] :: fan p0 rest
  | _ => []
  end.

Definition fan_earclip (boundingRegion : polygon) : outcome (list triangle) :=
  match boundingRegion with
  | p0 :: ps => Ret (fan p0 ps)
  | [] => Ret []
  end.

Definition shoelace_area (a b c : loc) : float :=
  match a, b, c with
  | [x1; y1], [x2; y2], [x3; y3] =>
      (abs (x1 * (y2 - y3) + x2 * (y3 - y1) + x3 * (y1 - y2)) / 2)%float
  | _, _, _ => 0%float
  end.

Definition planar_distance (a b : loc) : float :=
  match a, b with
  | x1 :: y1 :: _, x2 :: y2 :: _ =>
      PrimFloat.sqrt ((x1 - x2) * (x1 - x2) + (y1 - y2) * (y1 - y2))%float
  | _, _ => infinity
  end.

(** Ray casting: count the edges a ray from the point crosses. *)
Fixpoint crossings (x y : float) (prev : loc) (vs : list loc) (inside : bool) : bool :=
  match vs with
  | [] => inside
  | v :: vs' =>
      let flip :=
        match prev, v with
        | [xj; yj], [xi; yi] =>
            negb (Bool.eqb (yj <? y)%float (yi <? y)%float)
            && (x <? (xj - xi) * (y - yi) / (yj - yi) + xi)%float
        | _, _ => false
        end in
      crossings x y v vs' (xorb inside flip)
  end.

Definition ray_casting (p : loc) (poly : polygon) : bool :=
  match p with
  | x :: y :: _ => crossings x y (List.last poly []) poly false
  | _ => false
  end.

(** A flat stand-in for the great-circle offset. *)
Definition flat_offset (center : loc) (direction distance : float) : loc :=
  match center with
  | lat :: lon :: _ =>
      [lat + distance * (1 - direction / 180); lon + distance * (direction / 360)]%float
  | _ => center
  end.

(** The road runs along [lon = 0.5]. *)
Definition nearestRoad (coordinates : list loc) (provider providerArgs : pyval) (n : nat)
    : outcome (list loc) * nat :=
  (Ret (map (fun p => match p with lat :: _ => [lat; 0.5%float] | [] => [] end) coordinates), n).

(** An adapter with the four parameters
    [(locs, dataProvider, APIkey, databaseName)]. *)
Definition snapBatch4 (args : list pyval) : nat -> outcome (list loc) * nat :=
  match args with
  | [PyLocs locs; provider; APIkey; databaseName] => nearestRoad locs provider APIkey
  | _ => fun n => (Raise TypeError, n)
  end.

Definition knownDistribs : list string :=
  ["uniformBB"; "normal"; "normalBB"; "unifRoadBasedBB"].

(** A validator that knows the four distributions and wants a positive
    count. *)
Definition validate_known (o : nodeOptions (list loc)) (numNodes : Z)
    (nodeDistrib : option string) (nodeDistribArgs : distribArgs) (n : nat)
    : outcome (bool * string * string) * nat :=
  if negb (0 <? numNodes) then
    (Ret (false, "Error: numNodes should be a positive integer.", EmptyString), n)
  else if existsb (tag_is nodeDistrib) knownDistribs then
    (Ret (true, EmptyString, EmptyString), n)
  else
    (Ret (false, "Error: nodeDistrib is not a valid option.", EmptyString), n).

(** A validator that lets everything through, with a warning. *)
Definition validate_anything (o : nodeOptions (list loc)) (numNodes : Z)
    (nodeDistrib : option string) (nodeDistribArgs : distribArgs) (n : nat)
    : outcome (bool * string * string) * nat :=
  (Ret (true, EmptyString, "Warning: inputs were not checked."), n).

Definition world
    (adapter : list pyval -> nat -> outcome (list loc) * nat)
    (validator : nodeOptions (list loc) -> Z -> option string -> distribArgs ->
                 nat -> outcome (bool * string * string) * nat)
    : Collaborators nat (list loc) :=
  {| np_random_uniform := tape_uniform;
     np_random_normal := tape_normal;
     randomPick := tape_pick;
     tripy_earclip := fan_earclip;
     areaOfTriangle := shoelace_area;
     geoDistance2D := planar_distance;
     geoIsPointInPoly := ray_casting;
     geoPointInDistance2D := flat_offset;
     privGetSnapLocBatch := adapter;
     valGenerateNodes := validator;
     valCreateNodesFromLocs := fun _ _ n => (Ret (true, EmptyString, EmptyString), n);
     privCreateNodesFromLocs := fun locs _ n => (Ret locs, n);
     VRV_SETTING_SHOWWARNINGMESSAGE := true |}.

(** A world whose adapter takes the four arguments the road sampler
    passes. *)
Definition accepting : Collaborators nat (list loc) := world snapBatch4 validate_known.
(** A world whose adapter is the one of the specification. *)
Definition contractual : Collaborators nat (list loc) := world (snapBatch nearestRoad) validate_known.
(** The first world with the permissive validator. *)
Definition unchecked : Collaborators nat (list loc) := world snapBatch4 validate_anything.

Definition square : polygon := [[0; 0]; [0; 1]; [1; 1]; [1; 0]]%float.

Definition centre : loc := [0.5; 0.5]%float.

Definition options : nodeOptions (list loc) :=
  {| initNodes := None; nodeType := Some "depot"; nodeName := None; startNode := 1;
     incrementName := false; incrementStart := 1; snapToRoad := false;
     leafletIconPrefix := "glyphicon"; leafletIconType := "info-sign";
     leafletColor := "blue"; leafletIconText := None;
     cesiumIconType := "pin"; cesiumColor := "Cesium.Color.BLUE"; cesiumIconText := None;
     dataProvider := PyStr "OSRM-online";
     dataProviderArgs := PyDict [("APIkey", "k")] |}.

Definition bag : distribArgs :=
  {| key_boundingRegion := Some square;
     key_center := Some centre;
     key_stdDev := Some 0.25%float;
     key_distToRoad := Some 0.25%float |}.

End Demo.


(** ** Vocabulary of the properties *)

(** The tags [generateNodes] has a branch for. *)
Definition dispatched : list string :=
  ["uniformBB"; "normal"; "normalBB"; "unifRoadBasedBB"].

Definition is_dispatched (nodeDistrib : option string) : bool :=
  existsb (tag_is nodeDistrib) dispatched.

(** The barycentric transform, on one component:
    (1 - sqrt r1) v1 + sqrt r1 (1 - r2) v2 + sqrt r1 r2 v3. *)
Definition barycentric (r1 r2 v1 v2 v3 : float) : float :=
  ((1 - PrimFloat.sqrt r1) * v1
   + PrimFloat.sqrt r1 * (1 - r2) * v2
   + PrimFloat.sqrt r1 * r2 * v3)%float.

(** The same pair [(r1, r2)] on latitudes and on longitudes. *)
Definition barycentricLoc (lat1 lon1 lat2 lon2 lat3 lon3 : float) (r : float * float) : loc :=
  [barycentric (fst r) (snd r) lat1 lat2 lat3; barycentric (fst r) (snd r) lon1 lon2 lon3].

(** What one sampled point costs the generator in a polygon whose
    triangles have the areas [lstArea]: a weighted pick, then two uniform
    draws. *)
Definition pointDraws (lstArea : list float) : list event :=
  [EvRandomPick lstArea; EvUniform 0 1; EvUniform 0 1].

(** The calls of a batch of [n] points: one triangulation, then the
    points. *)
Definition batchTrace (boundingRegion : polygon) (lstArea : list float) (n : nat) : list event :=
  EvEarclip boundingRegion :: concat (replicate n (pointDraws lstArea)).

(** One round of the road sampler: the candidates drawn, what the adapter
    gave back for them, and the triangle areas of the round. *)
Record round : Type := {
  candidates : list loc;
  snapped : list loc;
  areas : list float
}.

Definition roundTrace (boundingRegion : polygon) (dataProvider APIkey databaseName : pyval)
    (r : round) : list event :=
  batchTrace boundingRegion (areas r) (length (candidates r))
  ++ [EvSnap [PyLocs (candidates r); dataProvider; APIkey; databaseName] (Ret (snapped r))].

(** The calls of a round that does not complete, when [missing] nodes are
    still to be found: the round triangulates at most once and picks at
    most [missing] times; and if it reaches the adapter at all, it has
    drawn the whole batch of exactly [missing] candidates before, and
    hands it over in one call, its last. *)
Definition cutShort (boundingRegion : polygon) (dataProvider APIkey databaseName : pyval)
    (missing : nat) (t : list event) : Prop :=
  (count_events is_earclip t <= 1)%nat
  /\ (count_events is_pick t <= missing)%nat
  /\ (count_events is_snap t <= 1)%nat
  /\ forall args res,
       EvSnap args res ∈ t ->
       exists newLocs lstArea,
         length newLocs = missing
         /\ t = batchTrace boundingRegion lstArea missing
                ++ [EvSnap [PyLocs newLocs; dataProvider; APIkey; databaseName] res].

(** [l[i]] where Python defines it: a negative index counts from the
    end. *)
Definition item {A} (l : list A) (i : Z) : option A :=
  if 0 <=? i then l !! Z.to_nat i
  else if - Z.of_nat (length l) <=? i then l !! Z.to_nat (Z.of_nat (length l) + i)
  else None.

Section Vocabulary.
Context {G Nodes : Type} {C : Collaborators G Nodes}.

(** [n] pairs of successive draws of [np.random.uniform(0, 1)], from the
    generator state [g] to [g']. *)
Inductive uniformPairs : nat -> G -> list (float * float) -> G -> Prop :=
| pairs_nil g : uniformPairs 0 g [] g
| pairs_cons n g r1 g1 r2 g2 ps g' :
    np_random_uniform 0 1 g = (Ret r1, g1) ->
    np_random_uniform 0 1 g1 = (Ret r2, g2) ->
    uniformPairs n g2 ps g' ->
    uniformPairs (S n) g ((r1, r2) :: ps) g'.

(** The [n] points of a batch, from the generator state [g] to [g'].  Each
    point takes one answer [idx] of [randomPick] on the areas [lstArea],
    the triangle [lstTriangle[idx]], and the next two draws of
    [np.random.uniform(0, 1)]: it is their barycentric transform on the
    first three vertices of that triangle. *)
Inductive pickedPoints (lstTriangle : list triangle) (lstArea : list float)
    : nat -> G -> list loc -> G -> Prop :=
| picked_nil g : pickedPoints lstTriangle lstArea 0 g [] g
| picked_cons n g idx g1 tri lat1 lon1 lat2 lon2 lat3 lon3 r1 g2 r2 g3 ps g' :
    randomPick lstArea g = (Ret idx, g1) ->
    item lstTriangle idx = Some tri ->
    tri !! 0%nat = Some [lat1; lon1] ->
    tri !! 1%nat = Some [lat2; lon2] ->
    tri !! 2%nat = Some [lat3; lon3] ->
    np_random_uniform 0 1 g1 = (Ret r1, g2) ->
    np_random_uniform 0 1 g2 = (Ret r2, g3) ->
    (r1 <? 0)%float = false ->
    pickedPoints lstTriangle lstArea n g3 ps g' ->
    pickedPoints lstTriangle lstArea (S n) g
      (barycentricLoc lat1 lon1 lat2 lon2 lat3 lon3 (r1, r2) :: ps) g'.

(** The candidates that pass the distance test against their snap results,
    position by position. *)
Fixpoint accepted (distToRoad : float) (newLocs snapLocs : list loc) : list loc :=
  match newLocs, snapLocs with
  | c :: cs, s :: ss =>
      (if (geoDistance2D c s <=? distToRoad)%float then [c] else [])
      ++ accepted distToRoad cs ss
  | _, _ => []
  end.

(** The candidates the adapter calls of a trace left standing. *)
Definition acceptedOfTrace (distToRoad : float) (t : list event) : list loc :=
  flat_map (fun ev =>
    match ev with
    | EvSnap (PyLocs newLocs :: _) (Ret snapLocs) => accepted distToRoad newLocs snapLocs
    | _ => []
    end) t.

Definition roundAccepted (distToRoad : float) (r : round) : list loc :=
  accepted distToRoad (candidates r) (snapped r).

(** Rounds played one after the other, starting with [have] already
    accepted: a round is played only while nodes are missing, and it draws
    as many candidates as are missing. *)
Fixpoint roundsFrom (numNodes : Z) (distToRoad : float) (have : list loc) (rs : list round)
    : Prop :=
  match rs with
  | [] => True
  | r :: rs' =>
      Z.of_nat (length have) < numNodes
      /\ Z.of_nat (length (candidates r)) = numNodes - Z.of_nat (length have)
      /\ (length (snapped r) <= length (candidates r))%nat
      /\ roundsFrom numNodes distToRoad (have ++ roundAccepted distToRoad r) rs'
  end.
End Vocabulary.

(** ** Vocabulary of the further properties *)

Definition is_validate (ev : event) : bool :=
  match ev with EvValidate => true | _ => false end.
Definition is_uniform (ev : event) : bool :=
  match ev with EvUniform _ _ => true | _ => false end.
Definition is_normal (ev : event) : bool :=
  match ev with EvNormal _ _ => true | _ => false end.

(** The keys the branch of a tag reads from the parameter bag, in the
    order in which it reads them. *)
Definition keysRead (nodeDistrib : option string) (nodeDistribArgs : distribArgs)
    : list string :=
  if tag_is nodeDistrib "uniformBB" then ["boundingRegion"]
  else if tag_is nodeDistrib "normal" then
    if contains nodeDistribArgs "boundingRegion"
    then ["boundingRegion"; "center"; "stdDev"]
    else ["center"; "stdDev"]
  else if tag_is nodeDistrib "normalBB" then ["boundingRegion"; "center"; "stdDev"]
  else if tag_is nodeDistrib "unifRoadBasedBB" then ["boundingRegion"; "distToRoad"]
  else [].

(** The first of the keys [ks] that the dictionary lacks. *)
Definition firstMissing (d : distribArgs) (ks : list string) : option string :=
  List.find (fun k => negb (contains d k)) ks.

Definition is_print (ev : event) : bool :=
  match ev with EvPrint _ => true | _ => false end.

(** The calls the sampler of a tag may make. *)
Definition samplerCalls (nodeDistrib : option string) (ev : event) : bool :=
  if tag_is nodeDistrib "uniformBB" then is_earclip ev || is_pick ev || is_uniform ev
  else if tag_is nodeDistrib "normal" || tag_is nodeDistrib "normalBB" then
    is_uniform ev || is_normal ev
  else if tag_is nodeDistrib "unifRoadBasedBB" then
    is_earclip ev || is_pick ev || is_uniform ev || is_snap ev
  else false.

(** One (bearing, distance) pair of the normal samplers, as calls. *)
Definition normalDraws (standardDeviation : float) : list event :=
  [EvUniform 0 360; EvNormal 0 standardDeviation].

Section FurtherVocabulary.
Context {G Nodes : Type} {C : Collaborators G Nodes}.

(** [n] pairs of successive draws of [np.random.uniform(0, 360)] and
    [np.random.normal(0, standardDeviation)], from the generator state [g]
    to [g']. *)
Inductive normalPairs (standardDeviation : float)
    : nat -> G -> list (float * float) -> G -> Prop :=
| normal_nil g : normalPairs standardDeviation 0 g [] g
| normal_cons n g u g1 v g2 ps g' :
    np_random_uniform 0 360 g = (Ret u, g1) ->
    np_random_normal 0 standardDeviation g1 = (Ret v, g2) ->
    normalPairs standardDeviation n g2 ps g' ->
    normalPairs standardDeviation (S n) g ((u, v) :: ps) g'.

(** The point a pair gives: [geoPointInDistance2D(center, bearing, distance)]. *)
Definition offsetLoc (center : loc) (r : float * float) : loc :=
  geoPointInDistance2D center (fst r) (snd r).

(** A triangle's weight: the area of its first three vertices. *)
Definition weightOf (tri : triangle) : option float :=
  match tri !! 0%nat, tri !! 1%nat, tri !! 2%nat with
  | Some a, Some b, Some c => Some (areaOfTriangle a b c)
  | _, _, _ => None
  end.

(** [p] is a barycentric combination of the first three vertices of [tri],
    which are pairs. *)
Definition sampledIn (tri : triangle) (p : loc) : Prop :=
  exists lat1 lon1 lat2 lon2 lat3 lon3 r,
    tri !! 0%nat = Some [lat1; lon1] /\ tri !! 1%nat = Some [lat2; lon2]
    /\ tri !! 2%nat = Some [lat3; lon3]
    /\ p = barycentricLoc lat1 lon1 lat2 lon2 lat3 lon3 r.
End FurtherVocabulary.

(** Further concrete worlds: the first world of [Demo] with some of its
    collaborators replaced. *)
Module Variants.
Import Demo.

Definition variant
    (inside : loc -> polygon -> bool) (distance : loc -> loc -> float)
    (clip : polygon -> outcome (list triangle))
    (choose : list float -> nat -> outcome Z * nat)
    (adapter : list pyval -> nat -> outcome (list loc) * nat)
    : Collaborators nat (list loc) :=
  {| np_random_uniform := tape_uniform;
     np_random_normal := tape_normal;
     randomPick := choose;
     tripy_earclip := clip;
     areaOfTriangle := shoelace_area;
     geoDistance2D := distance;
     geoIsPointInPoly := inside;
     geoPointInDistance2D := flat_offset;
     privGetSnapLocBatch := adapter;
     valGenerateNodes := validate_known;
     valCreateNodesFromLocs :=
       fun locs _ n =>
         match locs with
         | [] => (Ret (false, "Error: locs is empty.", EmptyString), n)
         | _ => (Ret (true, EmptyString, "Warning: altitudes default to 0."), n)
         end;
     privCreateNodesFromLocs := fun locs _ n => (Ret locs, n);
     VRV_SETTING_SHOWWARNINGMESSAGE := true |}.

(** A region test that lets every point through. *)
Definition everywhere : Collaborators nat (list loc) :=
  variant (fun _ _ => true) planar_distance fan_earclip tape_pick snapBatch4.

(** A road infinitely far from every candidate. *)
Definition farRoad : Collaborators nat (list loc) :=
  variant ray_casting (fun _ _ => infinity) fan_earclip tape_pick snapBatch4.

(** A triangulation that finds no triangle, and a pick that answers with
    its first index whatever the weights. *)
Definition noTriangle : Collaborators nat (list loc) :=
  variant ray_casting planar_distance (fun _ => Ret []) (fun _ n => (Ret 0, S n)) snapBatch4.

(** An adapter that answers with one coordinate too many. *)
Definition snapOneMore (args : list pyval) (n : nat) : outcome (list loc) * nat :=
  match snapBatch4 args n with
  | (Ret ls, n') => (Ret (ls ++ [[0.5; 0.5]%float]), n')
  | other => other
  end.

Definition talkative : Collaborators nat (list loc) :=
  variant ray_casting planar_distance fan_earclip tape_pick snapOneMore.

(** The first world, with the validation of [createNodesFromLocs] above. *)
Definition plain : Collaborators nat (list loc) :=
  variant ray_casting planar_distance fan_earclip tape_pick snapBatch4.

(** A bag without the centre. *)
Definition bagNoCenter : distribArgs :=
  {| key_boundingRegion := Some square;
     key_center := None;
     key_stdDev := Some 0.25%float;
     key_distToRoad := None |}.
End Variants.

(** ** Reasoning about computations *)

Section MonadFacts.
Context {G : Type}.
Local Abbreviation M := (M (G:=G)).
Local Abbreviation emits P m := (emits (G:=G) P m).

Lemma bind_inv {A B} (m : M A) (k : A -> M B) g r g' t :
  bind m k g = (r, g', t) ->
  (exists a g1 t1 t2, m g = (Ret a, g1, t1) /\ k a g1 = (r, g', t2) /\ t = t1 ++ t2)
  \/ (exists e, m g = (Raise e, g', t) /\ r = Raise e)
  \/ (m g = (Timeout, g', t) /\ r = Timeout).
Proof.
  unfold bind. destruct (m g) as [[[a | e |] g1] t1].
  - destruct (k a g1) as [[r2 g2] t2] eqn:Hk. intros [= <- <- <-].
    left. exists a, g1, t1, t2. auto.
  - intros [= <- <- <-]. right. left. exists e. auto.
  - intros [= <- <- <-]. right. right. auto.
Qed.

Lemma bind_Ret_inv {A B} (m : M A) (k : A -> M B) g b g' t :
  bind m k g = (Ret b, g', t) ->
  exists a g1 t1 t2, m g = (Ret a, g1, t1) /\ k a g1 = (Ret b, g', t2) /\ t = t1 ++ t2.
Proof.
  intros H. destruct (bind_inv _ _ _ _ _ _ H) as [H1 | [(e & _ & He) | (_ & He)]];
    [exact H1 | discriminate | discriminate].
Qed.

Lemma bind_Ret_intro {A B} (m : M A) (k : A -> M B) g a g1 t1 r g2 t2 :
  m g = (Ret a, g1, t1) -> k a g1 = (r, g2, t2) -> bind m k g = (r, g2, t1 ++ t2).
Proof. intros Hm Hk. unfold bind. rewrite Hm, Hk. reflexivity. Qed.

Lemma bind_ret_l {A B} (a : A) (k : A -> M B) g : bind (ret a) k g = k a g.
Proof. unfold bind, ret. destruct (k a g) as [[r g'] t]. reflexivity. Qed.

Lemma bind_cong_l {A B} (m m' : M A) (k : A -> M B) g :
  m g = m' g -> bind m k g = bind m' k g.
Proof. unfold bind. intros ->. reflexivity. Qed.

Lemma ret_inv {A} (a b : A) (g g' : G) t :
  ret a g = (Ret b, g', t) -> b = a /\ g' = g /\ t = [].
Proof. unfold ret. intros [= <- <- <-]. auto. Qed.

Lemma call_inv {A} (ev : outcome A -> event) f (g : G) r g' t :
  call ev f g = (r, g', t) -> f g = (r, g') /\ t = [ev r].
Proof. unfold call. destruct (f g) as [r0 g0]. intros [= <- <- <-]. auto. Qed.

Lemma index_Ret_inv {A} (l : list A) i (g : G) x g' t :
  index l i g = (Ret x, g', t) -> l !! i = Some x /\ g' = g /\ t = [].
Proof.
  unfold index. destruct (l !! i) as [y|]; [| discriminate].
  intros H. apply ret_inv in H as (-> & -> & ->). auto.
Qed.

(** *** Calls made, whatever the outcome *)

Lemma emits_ret {A} P (a : A) : emits P (ret a).
Proof. intros g r g' t [= <- <- <-]. constructor. Qed.

Lemma emits_raise {A} P e : emits P (raise (A:=A) e).
Proof. intros g r g' t [= <- <- <-]. constructor. Qed.

Lemma emits_timeout {A} P : emits P (timeout (A:=A)).
Proof. intros g r g' t [= <- <- <-]. constructor. Qed.

Lemma emits_call {A} (P : event -> Prop) (ev : outcome A -> event) f :
  (forall r, P (ev r)) -> emits P (call ev f).
Proof.
  intros HP g r g' t H. apply call_inv in H as [_ ->]. constructor; [apply HP | constructor].
Qed.

Lemma emits_call_result {A} (P : event -> Prop) (ev : outcome A -> event) f :
  (forall g r g', f g = (r, g') -> P (ev r)) -> emits P (call ev f).
Proof.
  intros HP g r g' t H. apply call_inv in H as [Hf ->].
  constructor; [eapply HP; exact Hf | constructor].
Qed.

Lemma emits_bind {A B} P (m : M A) (k : A -> M B) :
  emits P m -> (forall a, emits P (k a)) -> emits P (bind m k).
Proof.
  intros Hm Hk g r g' t H.
  destruct (bind_inv _ _ _ _ _ _ H)
    as [(a & g1 & t1 & t2 & H1 & H2 & ->) | [(e & H1 & _) | (H1 & _)]].
  - apply Forall_app. split; [eapply Hm | eapply Hk]; eassumption.
  - eapply Hm; eassumption.
  - eapply Hm; eassumption.
Qed.

Lemma emits_for_each {A St} P (xs : list A) (body : A -> St -> M St) :
  (forall x s, emits P (body x s)) -> forall s, emits P (for_each xs body s).
Proof.
  intros Hb. induction xs as [| x xs IH]; intros s; simpl.
  - apply emits_ret.
  - apply emits_bind; [apply Hb | exact IH].
Qed.

Lemma emits_for_range {St} P n (body : nat -> St -> M St) s :
  (forall i s, emits P (body i s)) -> emits P (for_range n body s).
Proof. intros Hb. unfold for_range. apply emits_for_each. exact Hb. Qed.

Lemma emits_while {St} P fuel cond (body : St -> M St) :
  (forall s, emits P (body s)) -> forall s, emits P (while fuel cond body s).
Proof.
  intros Hb. induction fuel as [| fuel IH]; intros s; simpl; destruct (cond s).
  - apply emits_timeout.
  - apply emits_ret.
  - apply emits_bind; [apply Hb | exact IH].
  - apply emits_ret.
Qed.

Lemma emits_index {A} P (l : list A) i : emits P (index (G:=G) l i).
Proof. unfold index. destruct (l !! i); [apply emits_ret | apply emits_raise]. Qed.

Lemma emits_index_Z {A} P (l : list A) i : emits P (index_Z (G:=G) l i).
Proof.
  unfold index_Z. destruct (0 <=? i); [apply emits_index |].
  destruct (- Z.of_nat (length l) <=? i); [apply emits_index | apply emits_raise].
Qed.

Lemma emits_unpack2 P p : emits P (unpack2 (G:=G) p).
Proof.
  unfold unpack2. destruct p as [| a [| b [| c p]]];
    first [apply emits_ret | apply emits_raise].
Qed.

Lemma emits_math_sqrt P x : emits P (math_sqrt (G:=G) x).
Proof. unfold math_sqrt. destruct (x <? 0)%float; [apply emits_raise | apply emits_ret]. Qed.

Lemma emits_getitem {A} P k (held : option A) : emits P (getitem (G:=G) k held).
Proof. unfold getitem. destruct held; [apply emits_ret | apply emits_raise]. Qed.

Lemma emits_weaken {A} (P Q : event -> Prop) (m : M A) :
  (forall ev, P ev -> Q ev) -> emits P m -> emits Q m.
Proof. intros HPQ Hm g r g' t H. eapply Forall_impl; [eapply Hm; eassumption | exact HPQ]. Qed.

(** *** Loops that return *)

Lemma for_each_Ret {A St} (body : A -> St -> M St) (I : nat -> St -> G -> list event -> Prop)
    xs s0 g0 :
  I 0%nat s0 g0 [] ->
  (forall i x s g t s' g' t',
      xs !! i = Some x -> I i s g t -> body x s g = (Ret s', g', t') ->
      I (S i) s' g' (t ++ t')) ->
  forall s g t, for_each xs body s0 g0 = (Ret s, g, t) -> I (length xs) s g t.
Proof.
  intros H0 Hstep.
  assert (Hgen : forall rest done s1 g1 t1 s g t2,
             xs = done ++ rest -> I (length done) s1 g1 t1 ->
             for_each rest body s1 g1 = (Ret s, g, t2) ->
             I (length xs) s g (t1 ++ t2)).
  { induction rest as [| x rest IH]; intros done s1 g1 t1 s g t2 Hxs HI Hrun; simpl in Hrun.
    - apply ret_inv in Hrun as (-> & -> & ->).
      rewrite Hxs, !app_nil_r. exact HI.
    - apply bind_Ret_inv in Hrun as (s' & g' & ta & tb & Hb & Hrest & ->).
      rewrite app_assoc.
      apply (IH (done ++ [x])) with (s1 := s') (g1 := g').
      + rewrite <- app_assoc. exact Hxs.
      + rewrite length_app. simpl. rewrite Nat.add_1_r.
        eapply Hstep; [| exact HI | exact Hb].
        rewrite Hxs. rewrite lookup_app_r by lia.
        rewrite Nat.sub_diag. reflexivity.
      + exact Hrest. }
  intros s g t Hrun.
  exact (Hgen xs [] s0 g0 [] s g t eq_refl H0 Hrun).
Qed.

Lemma for_range_Ret {St} (body : nat -> St -> M St) (I : nat -> St -> G -> list event -> Prop)
    n s0 g0 :
  I 0%nat s0 g0 [] ->
  (forall i s g t s' g' t',
      (i < n)%nat -> I i s g t -> body i s g = (Ret s', g', t') -> I (S i) s' g' (t ++ t')) ->
  forall s g t, for_range n body s0 g0 = (Ret s, g, t) -> I n s g t.
Proof.
  intros H0 Hstep s g t Hrun. unfold for_range in Hrun.
  pose proof (for_each_Ret body I (seq 0 n) s0 g0 H0) as Hloop.
  rewrite length_seq in Hloop. apply Hloop; [| exact Hrun].
  intros i x s1 g1 t1 s' g' t' Hx HI Hb.
  apply lookup_seq in Hx as [-> Hlt]. simpl in Hb.
  eapply Hstep; eassumption.
Qed.

Lemma while_Ret {St} cond (body : St -> M St) (I : St -> G -> list event -> Prop) fuel s0 g0 :
  I s0 g0 [] ->
  (forall s g t s' g' t',
      cond s = true -> I s g t -> body s g = (Ret s', g', t') -> I s' g' (t ++ t')) ->
  forall s g t, while fuel cond body s0 g0 = (Ret s, g, t) -> I s g t /\ cond s = false.
Proof.
  intros H0 Hstep.
  assert (Hgen : forall fuel s1 g1 t1 s g t2,
             I s1 g1 t1 -> while fuel cond body s1 g1 = (Ret s, g, t2) ->
             I s g (t1 ++ t2) /\ cond s = false).
  { clear fuel. induction fuel as [| fuel IH]; intros s1 g1 t1 s g t2 HI Hrun;
      simpl in Hrun; destruct (cond s1) eqn:Hc.
    - discriminate.
    - apply ret_inv in Hrun as (-> & -> & ->). rewrite app_nil_r. auto.
    - apply bind_Ret_inv in Hrun as (s' & g' & ta & tb & Hb & Hrest & ->).
      rewrite app_assoc. eapply IH; [| exact Hrest].
      eapply Hstep; eassumption.
    - apply ret_inv in Hrun as (-> & -> & ->). rewrite app_nil_r. auto. }
  intros s g t Hrun. exact (Hgen fuel s0 g0 [] s g t H0 Hrun).
Qed.
End MonadFacts.

Create HintDb emits discriminated.
#[export] Hint Resolve emits_ret emits_raise emits_timeout emits_index emits_index_Z
  emits_unpack2 emits_math_sqrt emits_getitem : emits.

Ltac emits_step :=
  first
    [ apply emits_bind; [| intros ?]
    | apply emits_for_range; intros ? ?
    | apply emits_while; intros ?
    | apply emits_call; intros ?; simpl; reflexivity
    | solve [auto with emits]
    | match goal with
      | |- emits _ (let '(_, _) := ?p in _) => destruct p
      | |- emits _ (if ?b then _ else _) => destruct b
      | |- emits _ (match ?x with _ => _ end) => destruct x
      end ].

(** Takes apart a hypothesis saying that a sequence of steps returned. *)
Ltac invert_run :=
  repeat match goal with
    | H : bind _ _ _ = (Ret _, _, _) |- _ =>
        let H' := fresh "Hrun" in
        apply bind_Ret_inv in H as (? & ? & ? & ? & H' & H & ?)
    | H : ret _ _ = (Ret _, _, _) |- _ => apply ret_inv in H as (? & ? & ?)
    | H : index _ _ _ = (Ret _, _, _) |- _ => apply index_Ret_inv in H as (H & ? & ?)
    | H : call _ _ _ = (_, _, _) |- _ => apply call_inv in H as (H & ?)
    | H : raise _ _ = (Ret _, _, _) |- _ => discriminate H
    | H : timeout _ = (Ret _, _, _) |- _ => discriminate H
    end.

(** ** Facts about lists of calls *)

Lemma count_events_app p t1 t2 :
  count_events p (t1 ++ t2) = (count_events p t1 + count_events p t2)%nat.
Proof. unfold count_events. rewrite List.filter_app, length_app. reflexivity. Qed.

Lemma count_events_none p t :
  Forall (fun ev => p ev = false) t -> count_events p t = 0%nat.
Proof.
  unfold count_events. induction 1 as [| ev t Hev _ IH]; simpl; [reflexivity |].
  rewrite Hev. exact IH.
Qed.


Lemma count_events_elem p ev t : ev ∈ t -> p ev = true -> (0 < count_events p t)%nat.
Proof.
  intros Hin Hp. unfold count_events.
  apply list_elem_of_In in Hin. induction t as [| y l IH]; simpl in *; [contradiction |].
  destruct Hin as [-> | Hin].
  - rewrite Hp. simpl. lia.
  - specialize (IH Hin). destruct (p y); simpl; lia.
Qed.

Lemma no_event_nil (t : list event) : Forall (fun _ => False) t -> t = [].
Proof. intros H. destruct t as [| ev t]; [reflexivity |]. inversion H as [| ? ? []]. Qed.

Lemma concat_replicate_S {A} n (x : list A) :
  concat (replicate (S n) x) = concat (replicate n x) ++ x.
Proof.
  induction n as [| n IH]; simpl in *; [rewrite app_nil_r; reflexivity |].
  rewrite IH at 1. rewrite app_assoc. reflexivity.
Qed.

Lemma count_events_concat_replicate p n t :
  count_events p (concat (replicate n t)) = (n * count_events p t)%nat.
Proof.
  induction n as [| n IH]; simpl; [reflexivity |].
  rewrite count_events_app, IH. reflexivity.
Qed.

Lemma batchTrace_earclips region lstArea n :
  count_events is_earclip (batchTrace region lstArea n) = 1%nat.
Proof.
  unfold batchTrace. change (EvEarclip region :: ?t) with ([EvEarclip region] ++ t).
  rewrite count_events_app, count_events_concat_replicate.
  unfold count_events, pointDraws. simpl. lia.
Qed.

Lemma batchTrace_picks region lstArea n :
  count_events is_pick (batchTrace region lstArea n) = n.
Proof.
  unfold batchTrace. change (EvEarclip region :: ?t) with ([EvEarclip region] ++ t).
  rewrite count_events_app, count_events_concat_replicate.
  unfold count_events, pointDraws. simpl. lia.
Qed.

Lemma batchTrace_snaps region lstArea n :
  count_events is_snap (batchTrace region lstArea n) = 0%nat.
Proof.
  unfold batchTrace. change (EvEarclip region :: ?t) with ([EvEarclip region] ++ t).
  rewrite count_events_app, count_events_concat_replicate.
  unfold count_events, pointDraws. simpl. lia.
Qed.

(** ** Facts about the samplers *)

Section SamplerFacts.
Context {G Nodes : Type} {C : Collaborators G Nodes}.
Local Abbreviation M := (M (G:=G)).

Lemma earclip_inv (boundingRegion : polygon) (g : G) r g' t :
  earclip boundingRegion g = (r, g', t) ->
  tripy_earclip boundingRegion = r /\ g' = g /\ t = [EvEarclip boundingRegion].
Proof. unfold earclip, call. intros [= <- <- <-]. auto. Qed.

Lemma snap_inv args (g : G) r g' t :
  snap args g = (r, g', t) -> privGetSnapLocBatch args g = (r, g') /\ t = [EvSnap args r].
Proof. unfold snap. apply call_inv. Qed.

Lemma unpack2_Ret_inv (p : loc) (g : G) q g' t :
  unpack2 p g = (Ret q, g', t) -> p = [fst q; snd q] /\ g' = g /\ t = [].
Proof.
  unfold unpack2. destruct p as [| a [| b [| c p]]]; try discriminate.
  intros H. apply ret_inv in H as (-> & -> & ->). auto.
Qed.

Lemma math_sqrt_Ret_inv x (g : G) y g' t :
  math_sqrt x g = (Ret y, g', t) ->
  (x <? 0)%float = false /\ y = PrimFloat.sqrt x /\ g' = g /\ t = [].
Proof.
  unfold math_sqrt. destruct (x <? 0)%float; [discriminate |].
  intros H. apply ret_inv in H as (-> & -> & ->). auto.
Qed.

Lemma uniformPairs_snoc n g ps g1 r1 g2 r2 g3 :
  uniformPairs n g ps g1 ->
  np_random_uniform 0 1 g1 = (Ret r1, g2) ->
  np_random_uniform 0 1 g2 = (Ret r2, g3) ->
  uniformPairs (S n) g (ps ++ [(r1, r2)]) g3.
Proof.
  intros Hps H1 H2. induction Hps as [g | n g a ga b gb ps g' Ha Hb _ IH]; simpl.
  - econstructor; [exact H1 | exact H2 | constructor].
  - econstructor; [exact Ha | exact Hb | exact (IH H1)].
Qed.

Lemma uniformPairs_length n g ps g' : uniformPairs n g ps g' -> length ps = n.
Proof. induction 1; simpl; congruence. Qed.

(** One pass through the loop body of [_genNodesUniformTriangle]. *)
Lemma _genNodesUniformTriangle_Ret numNodes (tri : triangle) (g : G) locs g' t :
  _genNodesUniformTriangle numNodes tri g = (Ret locs, g', t) ->
  exists lat1 lon1 lat2 lon2 lat3 lon3 ps,
    tri !! 0%nat = Some [lat1; lon1] /\ tri !! 1%nat = Some [lat2; lon2]
    /\ tri !! 2%nat = Some [lat3; lon3]
    /\ uniformPairs (Z.to_nat numNodes) g ps g'
    /\ Forall (fun r => (fst r <? 0)%float = false) ps
    /\ locs = map (barycentricLoc lat1 lon1 lat2 lon2 lat3 lon3) ps
    /\ t = concat (replicate (Z.to_nat numNodes) [EvUniform 0 1; EvUniform 0 1]).
Proof.
  unfold _genNodesUniformTriangle. intros H.
  apply bind_Ret_inv in H as (v1 & ? & ? & ? & Hv1 & H & ->).
  apply index_Ret_inv in Hv1 as (Hv1 & -> & ->).
  apply bind_Ret_inv in H as ([lat1 lon1] & ? & ? & ? & Hp1 & H & ->).
  apply unpack2_Ret_inv in Hp1 as (-> & -> & ->).
  apply bind_Ret_inv in H as (v2 & ? & ? & ? & Hv2 & H & ->).
  apply index_Ret_inv in Hv2 as (Hv2 & -> & ->).
  apply bind_Ret_inv in H as ([lat2 lon2] & ? & ? & ? & Hp2 & H & ->).
  apply unpack2_Ret_inv in Hp2 as (-> & -> & ->).
  apply bind_Ret_inv in H as (v3 & ? & ? & ? & Hv3 & H & ->).
  apply index_Ret_inv in Hv3 as (Hv3 & -> & ->).
  apply bind_Ret_inv in H as ([lat3 lon3] & ? & ? & ? & Hp3 & H & ->).
  apply unpack2_Ret_inv in Hp3 as (-> & -> & ->).
  simpl in *.
  exists lat1, lon1, lat2, lon2, lat3, lon3.
  eapply (for_range_Ret _
    (fun i s g1 t1 =>
       exists ps, uniformPairs i g ps g1
                  /\ Forall (fun r => (fst r <? 0)%float = false) ps
                  /\ s = map (barycentricLoc lat1 lon1 lat2 lon2 lat3 lon3) ps
                  /\ t1 = concat (replicate i [EvUniform 0 1; EvUniform 0 1]))) in H.
  - destruct H as (ps & Hps & Hpos & -> & ->). exists ps. auto 10.
  - exists []. repeat split; [constructor | constructor].
  - intros i s g1 t1 s' g2 t2 _ (ps & Hps & Hpos & -> & ->) Hb.
    apply bind_Ret_inv in Hb as (r1 & ga & ? & ? & Hr1 & Hb & ->).
    apply call_inv in Hr1 as (Hr1 & ->).
    apply bind_Ret_inv in Hb as (r2 & gb & ? & ? & Hr2 & Hb & ->).
    apply call_inv in Hr2 as (Hr2 & ->).
    apply bind_Ret_inv in Hb as (a1 & ? & ? & ? & Ha1 & Hb & ->).
    apply math_sqrt_Ret_inv in Ha1 as (Hnonneg & -> & -> & ->).
    apply bind_Ret_inv in Hb as (a2 & ? & ? & ? & Ha2 & Hb & ->).
    apply math_sqrt_Ret_inv in Ha2 as (_ & -> & -> & ->).
    apply bind_Ret_inv in Hb as (a3 & ? & ? & ? & Ha3 & Hb & ->).
    apply math_sqrt_Ret_inv in Ha3 as (_ & -> & -> & ->).
    apply bind_Ret_inv in Hb as (b1 & ? & ? & ? & Hb1 & Hb & ->).
    apply math_sqrt_Ret_inv in Hb1 as (_ & -> & -> & ->).
    apply bind_Ret_inv in Hb as (b2 & ? & ? & ? & Hb2 & Hb & ->).
    apply math_sqrt_Ret_inv in Hb2 as (_ & -> & -> & ->).
    apply bind_Ret_inv in Hb as (b3 & ? & ? & ? & Hb3 & Hb & ->).
    apply math_sqrt_Ret_inv in Hb3 as (_ & -> & -> & ->).
    apply ret_inv in Hb as (-> & -> & ->).
    exists (ps ++ [(r1, r2)]). repeat split.
    + eapply uniformPairs_snoc; eassumption.
    + apply Forall_app. split; [exact Hpos | repeat constructor; exact Hnonneg].
    + rewrite map_app. reflexivity.
    + rewrite concat_replicate_S. reflexivity.
Qed.

Lemma _genNodesUniformTriangle_emits numNodes (tri : triangle) :
  emits (fun ev => ev = EvUniform 0 1) (_genNodesUniformTriangle numNodes tri).
Proof. unfold _genNodesUniformTriangle, uniform. repeat emits_step. Qed.

Lemma triangleAreas_Ret (lstTriangle : list triangle) (g : G) lstArea g' t :
  triangleAreas lstTriangle g = (Ret lstArea, g', t) -> g' = g /\ t = [].
Proof.
  unfold triangleAreas. intros H.
  eapply (for_range_Ret _ (fun _ _ g1 t1 => g1 = g /\ t1 = [])); [| | exact H].
  - auto.
  - intros i s g1 t1 s' g2 t2 _ [-> ->] Hb.
    invert_run. subst. auto.
Qed.

Lemma triangleAreas_emits (lstTriangle : list triangle) :
  emits (fun _ => False) (triangleAreas lstTriangle).
Proof. unfold triangleAreas. repeat emits_step. Qed.
Lemma index_Z_Ret_inv {A} (l : list A) i (g : G) x g' t :
  index_Z l i g = (Ret x, g', t) -> x ∈ l /\ g' = g /\ t = [].
Proof.
  unfold index_Z. intros H.
  destruct (0 <=? i); [| destruct (- Z.of_nat (length l) <=? i); [| discriminate]];
    apply index_Ret_inv in H as (H & -> & ->);
    (split; [eapply list_elem_of_lookup_2; exact H | auto]).
Qed.

Lemma _genNodesUniformBounded_Ret numNodes (boundingRegion : polygon) (g : G) locs g' t :
  _genNodesUniformBounded numNodes boundingRegion g = (Ret locs, g', t) ->
  exists lstTriangle lstArea,
    tripy_earclip boundingRegion = Ret lstTriangle
    /\ triangleAreas lstTriangle g = (Ret lstArea, g, [])
    /\ length locs = Z.to_nat numNodes
    /\ t = batchTrace boundingRegion lstArea (Z.to_nat numNodes).
Proof.
  unfold _genNodesUniformBounded. intros H.
  apply bind_Ret_inv in H as (lstTriangle & g1 & ? & ? & Hclip & H & ->).
  apply earclip_inv in Hclip as (Hclip & -> & ->).
  apply bind_Ret_inv in H as (lstArea & g2 & ? & ? & Hareas & H & ->).
  destruct (triangleAreas_Ret _ _ _ _ _ Hareas) as [-> ->].
  exists lstTriangle, lstArea. split; [exact Hclip |]. split; [exact Hareas |].
  eapply (for_range_Ret _
    (fun i s _ t1 => length s = i /\ t1 = concat (replicate i (pointDraws lstArea)))) in H.
  - destruct H as [Hlen ->]. split; [exact Hlen | reflexivity].
  - auto.
  - intros i s ga t1 s' gb t2 _ [Hlen ->] Hb.
    apply bind_Ret_inv in Hb as (idx & ? & ? & ? & Hpick & Hb & ->).
    apply call_inv in Hpick as (Hpick & ->).
    apply bind_Ret_inv in Hb as (tri & ? & ? & ? & Htri & Hb & ->).
    apply index_Z_Ret_inv in Htri as (_ & -> & ->).
    apply bind_Ret_inv in Hb as (newLoc & ? & ? & ? & Hnew & Hb & ->).
    apply ret_inv in Hb as (-> & -> & ->).
    apply _genNodesUniformTriangle_Ret in Hnew
      as (? & ? & ? & ? & ? & ? & ps & _ & _ & _ & Hps & _ & -> & ->).
    apply uniformPairs_length in Hps. split.
    + rewrite length_app, length_map, Hps, Hlen. simpl. lia.
    + rewrite concat_replicate_S. reflexivity.
Qed.

Lemma index_Z_Ret_item {A} (l : list A) i (g : G) x g' t :
  index_Z l i g = (Ret x, g', t) -> item l i = Some x /\ g' = g /\ t = [].
Proof.
  unfold index_Z, item. intros H.
  destruct (0 <=? i); [| destruct (- Z.of_nat (length l) <=? i); [| discriminate]];
    apply index_Ret_inv in H as (H & -> & ->); auto.
Qed.

Lemma pickedPoints_snoc lstTriangle lstArea n g ps ga idx gb tri
    lat1 lon1 lat2 lon2 lat3 lon3 r1 gc r2 gd :
  pickedPoints lstTriangle lstArea n g ps ga ->
  randomPick lstArea ga = (Ret idx, gb) ->
  item lstTriangle idx = Some tri ->
  tri !! 0%nat = Some [lat1; lon1] ->
  tri !! 1%nat = Some [lat2; lon2] ->
  tri !! 2%nat = Some [lat3; lon3] ->
  np_random_uniform 0 1 gb = (Ret r1, gc) ->
  np_random_uniform 0 1 gc = (Ret r2, gd) ->
  (r1 <? 0)%float = false ->
  pickedPoints lstTriangle lstArea (S n) g
    (ps ++ [barycentricLoc lat1 lon1 lat2 lon2 lat3 lon3 (r1, r2)]) gd.
Proof.
  intros Hps Hpick Htri H1 H2 H3 Hr1 Hr2 Hpos.
  induction Hps; simpl.
  - econstructor; try eassumption. constructor.
  - econstructor; try eassumption. apply IHHps; assumption.
Qed.

(** The points of a batch that returns: what was picked, where, and what
    was drawn. *)
Lemma _genNodesUniformBounded_picked numNodes (boundingRegion : polygon) (g : G) locs g' t :
  _genNodesUniformBounded numNodes boundingRegion g = (Ret locs, g', t) ->
  exists lstTriangle lstArea,
    tripy_earclip boundingRegion = Ret lstTriangle
    /\ triangleAreas lstTriangle g = (Ret lstArea, g, [])
    /\ pickedPoints lstTriangle lstArea (Z.to_nat numNodes) g locs g'.
Proof.
  unfold _genNodesUniformBounded. intros H.
  apply bind_Ret_inv in H as (lstTriangle & g1 & ? & ? & Hclip & H & ->).
  apply earclip_inv in Hclip as (Hclip & -> & ->).
  apply bind_Ret_inv in H as (lstArea & g2 & ? & ? & Hareas & H & ->).
  destruct (triangleAreas_Ret _ _ _ _ _ Hareas) as [-> ->].
  exists lstTriangle, lstArea. split; [exact Hclip |]. split; [exact Hareas |].
  eapply (for_range_Ret _
    (fun i s g1 _ => pickedPoints lstTriangle lstArea i g s g1)) in H.
  - exact H.
  - constructor.
  - intros i s ga t1 s' gb t2 _ Hps Hb.
    apply bind_Ret_inv in Hb as (idx & ? & ? & ? & Hpick & Hb & ->).
    apply call_inv in Hpick as (Hpick & ->).
    apply bind_Ret_inv in Hb as (tri & ? & ? & ? & Htri & Hb & ->).
    apply index_Z_Ret_item in Htri as (Htri & -> & ->).
    apply bind_Ret_inv in Hb as (newLoc & ? & ? & ? & Hnew & Hb & ->).
    apply ret_inv in Hb as (-> & -> & ->).
    apply _genNodesUniformTriangle_Ret in Hnew
      as (lat1 & lon1 & lat2 & lon2 & lat3 & lon3 & ps & H1 & H2 & H3 & Hps1 & Hpos & -> & _).
    change (Z.to_nat 1) with 1%nat in Hps1.
    inversion Hps1 as [| n0 g0 r1 gc r2 gd ps0 g0' Hr1 Hr2 Hrest]; subst.
    inversion Hrest; subst.
    apply Forall_cons in Hpos as [Hpos _]. simpl in Hpos.
    eapply pickedPoints_snoc; eassumption.
Qed.

(** Past the triangulation, a batch does not triangulate again. *)
Lemma _genNodesUniformBounded_draws_emit (lstTriangle : list triangle) n :
  emits (fun ev => is_earclip ev = false /\ is_snap ev = false)
    (lstArea <- triangleAreas lstTriangle ;;
     for_range n (fun _ locs =>
       idx <- pick lstArea ;;
       tri <- index_Z lstTriangle idx ;;
       newLoc <- _genNodesUniformTriangle 1 tri ;;
       ret (locs ++ newLoc)) []).
Proof.
  apply emits_bind; [| intros lstArea].
  - eapply emits_weaken; [| apply triangleAreas_emits]. intros ev [].
  - apply emits_for_range. intros i s.
    apply emits_bind; [apply emits_call; intros r; simpl; auto | intros idx].
    apply emits_bind; [auto with emits | intros tri].
    apply emits_bind; [| intros newLoc; auto with emits].
    eapply emits_weaken; [| apply _genNodesUniformTriangle_emits].
    intros ev ->. simpl. auto.
Qed.

Lemma _genNodesUniformBounded_emits numNodes (boundingRegion : polygon) :
  emits (fun ev => is_snap ev = false) (_genNodesUniformBounded numNodes boundingRegion).
Proof.
  unfold _genNodesUniformBounded.
  apply emits_bind; [apply emits_call; intros r; reflexivity | intros lstTriangle].
  eapply emits_weaken; [| apply _genNodesUniformBounded_draws_emit].
  intros ev [_ Hs]. exact Hs.
Qed.

Lemma _genNodesNormal_Ret numNodes (center : loc) sd (g : G) locs g' t :
  _genNodesNormal numNodes center sd g = (Ret locs, g', t) ->
  length locs = Z.to_nat numNodes
  /\ Forall (fun p => exists u v, p = geoPointInDistance2D center u v) locs
  /\ t = concat (replicate (Z.to_nat numNodes) [EvUniform 0 360; EvNormal 0 sd]).
Proof.
  unfold _genNodesNormal. intros H.
  eapply (for_range_Ret _
    (fun i s _ t1 =>
       length s = i
       /\ Forall (fun p => exists u v, p = geoPointInDistance2D center u v) s
       /\ t1 = concat (replicate i [EvUniform 0 360; EvNormal 0 sd]))) in H.
  - exact H.
  - repeat split. constructor.
  - intros i s ga t1 s' gb t2 _ (Hlen & Hall & ->) Hb.
    apply bind_Ret_inv in Hb as (u & gm & ? & ? & Hu & Hb & ->).
    apply call_inv in Hu as (Hu & ->).
    apply bind_Ret_inv in Hb as (v & gn & ? & ? & Hv & Hb & ->).
    apply call_inv in Hv as (Hv & ->).
    apply ret_inv in Hb as (-> & -> & ->).
    repeat split.
    + rewrite length_app, Hlen. simpl. lia.
    + apply Forall_app. split; [exact Hall | repeat constructor; eauto].
    + rewrite concat_replicate_S. reflexivity.
Qed.

Lemma _genNodesNormalBounded_Ret fuel numNodes (boundingRegion : polygon) (center : loc) sd
    (g : G) locs g' t :
  _genNodesNormalBounded fuel numNodes boundingRegion center sd g = (Ret locs, g', t) ->
  length locs = Z.to_nat numNodes
  /\ Forall (fun p => geoIsPointInPoly p boundingRegion = true
                      /\ exists u v, p = geoPointInDistance2D center u v) locs.
Proof.
  unfold _genNodesNormalBounded. intros H.
  eapply (for_range_Ret _
    (fun i s _ _ =>
       length s = i
       /\ Forall (fun p => geoIsPointInPoly p boundingRegion = true
                           /\ exists u v, p = geoPointInDistance2D center u v) s)) in H.
  - exact H.
  - split; [reflexivity | constructor].
  - intros i s ga t1 s' gb t2 _ (Hlen & Hall) Hb.
    apply bind_Ret_inv in Hb as (u0 & gm & ? & ? & _ & Hb & ->).
    apply bind_Ret_inv in Hb as (v0 & gn & ? & ? & _ & Hb & ->).
    apply bind_Ret_inv in Hb as (p & g1 & ? & ? & Hloop & Hb & ->).
    apply ret_inv in Hb as (-> & -> & ->).
    eapply (while_Ret _ _
      (fun q _ _ => exists u v, q = geoPointInDistance2D center u v)) in Hloop.
    + destruct Hloop as [Hdrawn Hin]. apply negb_false_iff in Hin. split.
      * rewrite length_app, Hlen. simpl. lia.
      * apply Forall_app. split; [exact Hall | repeat constructor; assumption].
    + eauto.
    + intros q gq tq q' gq' tq' _ _ Hq.
      apply bind_Ret_inv in Hq as (u & ? & ? & ? & _ & Hq & _).
      apply bind_Ret_inv in Hq as (v & ? & ? & ? & _ & Hq & _).
      apply ret_inv in Hq as (-> & _). eauto.
Qed.

(** *** The distance filter *)

Lemma accepted_snoc d (cs ss : list loc) c s :
  length cs = length ss ->
  accepted d (cs ++ [c]) (ss ++ [s])
  = accepted d cs ss ++ (if (geoDistance2D c s <=? d)%float then [c] else []).
Proof.
  revert ss. induction cs as [| c0 cs IH]; intros [| s0 ss] Hlen; simpl in *; try discriminate.
  - rewrite app_nil_r. reflexivity.
  - rewrite IH by lia. rewrite app_assoc. reflexivity.
Qed.

Lemma accepted_take d (cs ss : list loc) :
  accepted d (take (length ss) cs) ss = accepted d cs ss.
Proof.
  revert cs. induction ss as [| s ss IH]; intros [| c cs]; simpl; try reflexivity.
  rewrite IH. reflexivity.
Qed.

Lemma accepted_length d (cs ss : list loc) :
  (length (accepted d cs ss) <= length cs)%nat.
Proof.
  revert ss. induction cs as [| c cs IH]; intros [| s ss]; simpl; try lia.
  rewrite length_app. specialize (IH ss).
  destruct (geoDistance2D c s <=? d)%float; simpl; lia.
Qed.

Lemma accepted_elem d (cs ss : list loc) p :
  p ∈ accepted d cs ss ->
  exists (i : nat) s,
    cs !! i = Some p /\ ss !! i = Some s /\ (geoDistance2D p s <=? d)%float = true.
Proof.
  revert ss. induction cs as [| c cs IH]; intros [| s ss] Hp; simpl in Hp;
    try (apply elem_of_nil in Hp; contradiction).
  apply elem_of_app in Hp as [Hp | Hp].
  - destruct (geoDistance2D c s <=? d)%float eqn:Hd.
    + apply list_elem_of_singleton in Hp as ->. exists 0%nat, s. auto.
    + apply elem_of_nil in Hp. contradiction.
  - destruct (IH ss Hp) as (i & s' & Hc & Hs & Hd). exists (S i), s'. auto.
Qed.

Lemma keepCloseToRoad_Ret d (newLocs snapLocs locs : list loc) (g : G) locs' g' t :
  keepCloseToRoad d newLocs snapLocs locs g = (Ret locs', g', t) ->
  locs' = locs ++ accepted d newLocs snapLocs
  /\ (length snapLocs <= length newLocs)%nat /\ g' = g /\ t = [].
Proof.
  unfold keepCloseToRoad. intros H.
  eapply (for_range_Ret _
    (fun i s g1 t1 =>
       s = locs ++ accepted d (take i newLocs) (take i snapLocs)
       /\ (i <= length newLocs)%nat /\ g1 = g /\ t1 = [])) in H.
  - destruct H as (-> & Hlen & -> & ->).
    rewrite (take_ge snapLocs) by lia. rewrite accepted_take. auto.
  - simpl. rewrite app_nil_r. repeat split. lia.
  - intros i s g1 t1 s' g2 t2 Hi (-> & Hle & -> & ->) Hb.
    apply bind_Ret_inv in Hb as (c & ? & ? & ? & Hc & Hb & ->).
    apply index_Ret_inv in Hc as (Hc & -> & ->).
    apply bind_Ret_inv in Hb as (s & ? & ? & ? & Hs & Hb & ->).
    apply index_Ret_inv in Hs as (Hs & -> & ->).
    pose proof (lookup_lt_Some _ _ _ Hc) as Hci.
    rewrite (take_S_r _ _ _ Hc), (take_S_r _ _ _ Hs).
    rewrite accepted_snoc by (rewrite !length_take; lia).
    destruct (geoDistance2D c s <=? d)%float;
      apply ret_inv in Hb as (-> & -> & ->);
      rewrite ?app_nil_r, ?app_assoc; repeat split; lia.
Qed.

Lemma keepCloseToRoad_emits d (newLocs snapLocs locs : list loc) :
  emits (fun _ => False) (keepCloseToRoad (G:=G) d newLocs snapLocs locs).
Proof. unfold keepCloseToRoad. repeat emits_step. Qed.

(** *** The rounds of the road sampler *)

Lemma roundsFrom_snoc N d (have : list loc) rs r :
  roundsFrom N d have rs ->
  Z.of_nat (length (have ++ concat (map (roundAccepted d) rs))) < N ->
  Z.of_nat (length (candidates r))
  = N - Z.of_nat (length (have ++ concat (map (roundAccepted d) rs))) ->
  (length (snapped r) <= length (candidates r))%nat ->
  roundsFrom N d have (rs ++ [r]).
Proof.
  revert have. induction rs as [| r0 rs IH]; intros have Hrs Hlt Hneed Hsnap; simpl in *.
  - rewrite app_nil_r in Hlt, Hneed. auto.
  - destruct Hrs as (H1 & H2 & H3 & Hrest). repeat split; [assumption ..|].
    rewrite app_assoc in Hlt, Hneed. apply IH; assumption.
Qed.

Lemma roundsFrom_bound N d (have : list loc) rs :
  roundsFrom N d have rs ->
  Z.of_nat (length have) <= N ->
  Z.of_nat (length (have ++ concat (map (roundAccepted d) rs))) <= N.
Proof.
  revert have. induction rs as [| r rs IH]; intros have Hrs Hle; simpl in *.
  - rewrite app_nil_r. exact Hle.
  - destruct Hrs as (Hlt & Hneed & _ & Hrest). rewrite app_assoc. apply IH; [exact Hrest |].
    rewrite length_app. pose proof (accepted_length d (candidates r) (snapped r)).
    unfold roundAccepted. lia.
Qed.

Lemma _genNodesRoadBased_rounds fuel numNodes (boundingRegion : polygon) d
    dataProvider APIkey databaseName (g : G) locs g' t :
  _genNodesRoadBased fuel numNodes boundingRegion d dataProvider APIkey databaseName g
  = (Ret locs, g', t) ->
  exists rs,
    t = concat (map (roundTrace boundingRegion dataProvider APIkey databaseName) rs)
    /\ locs = concat (map (roundAccepted d) rs)
    /\ roundsFrom numNodes d [] rs
    /\ ~ Z.of_nat (length locs) < numNodes.
Proof.
  unfold _genNodesRoadBased. intros H.
  eapply (while_Ret _ _
    (fun s _ t1 =>
       exists rs,
         t1 = concat (map (roundTrace boundingRegion dataProvider APIkey databaseName) rs)
         /\ s = concat (map (roundAccepted d) rs)
         /\ roundsFrom numNodes d [] rs)) in H.
  - destruct H as [(rs & -> & -> & Hrs) Hexit]. exists rs.
    apply Z.ltb_ge in Hexit. repeat split; [exact Hrs | lia].
  - exists []. simpl. auto.
  - intros s g1 t1 s' g2 t2 Hcond (rs & -> & -> & Hrs) Hb.
    apply Z.ltb_lt in Hcond.
    apply bind_Ret_inv in Hb as (newLocs & ga & ? & ? & Hnew & Hb & ->).
    apply bind_Ret_inv in Hb as (snapLocs & gb & ? & ? & Hsnap & Hb & ->).
    apply snap_inv in Hsnap as (Hsnap & ->).
    apply keepCloseToRoad_Ret in Hb as (-> & Hlen & -> & ->).
    apply _genNodesUniformBounded_Ret in Hnew as (lstTriangle & lstArea & _ & _ & Hn & ->).
    exists (rs ++ [{| candidates := newLocs; snapped := snapLocs; areas := lstArea |}]).
    rewrite !map_app, !concat_app. simpl. rewrite !app_nil_r.
    unfold roundTrace at 2. simpl. rewrite Hn.
    split; [reflexivity |].
    split; [reflexivity |].
    apply roundsFrom_snoc; simpl; [exact Hrs | exact Hcond | lia | exact Hlen].
Qed.

(** What the road sampler says to the adapter, and what it hears, however
    the run ends. *)
Lemma _genNodesRoadBased_emits fuel numNodes (boundingRegion : polygon) d
    dataProvider APIkey databaseName :
  emits (fun ev => forall args r, ev = EvSnap args r ->
                   exists newLocs (g1 g2 : G),
                     args = [PyLocs newLocs; dataProvider; APIkey; databaseName]
                     /\ privGetSnapLocBatch args g1 = (r, g2))
    (_genNodesRoadBased fuel numNodes boundingRegion d dataProvider APIkey databaseName).
Proof.
  unfold _genNodesRoadBased. apply emits_while. intros locs.
  apply emits_bind; [| intros newLocs].
  - eapply emits_weaken; [| apply _genNodesUniformBounded_emits].
    intros ev Hev args r ->. discriminate.
  - apply emits_bind; [| intros snapLocs].
    + unfold snap. apply emits_call_result. intros g1 r g2 Hcall args r' [= <- <-]. eauto.
    + eapply emits_weaken; [| apply keepCloseToRoad_emits]. intros ev [].
Qed.

Lemma acceptedOfTrace_app d (t1 t2 : list event) :
  acceptedOfTrace d (t1 ++ t2) = acceptedOfTrace d t1 ++ acceptedOfTrace d t2.
Proof. unfold acceptedOfTrace. apply flat_map_app. Qed.

Lemma acceptedOfTrace_batch d region lstArea n :
  acceptedOfTrace d (batchTrace region lstArea n) = [].
Proof.
  unfold batchTrace. simpl. induction n as [| n IH]; simpl; [reflexivity | exact IH].
Qed.

Lemma acceptedOfTrace_rounds d region dataProvider APIkey databaseName rs :
  acceptedOfTrace d (concat (map (roundTrace region dataProvider APIkey databaseName) rs))
  = concat (map (roundAccepted d) rs).
Proof.
  induction rs as [| r rs IH]; [reflexivity |].
  cbn [map concat]. rewrite acceptedOfTrace_app, IH. f_equal.
  unfold roundTrace. rewrite acceptedOfTrace_app, acceptedOfTrace_batch.
  simpl. apply app_nil_r.
Qed.

Lemma _genNodesRoadBased_length fuel numNodes (boundingRegion : polygon) d
    dataProvider APIkey databaseName (g : G) locs g' t :
  _genNodesRoadBased fuel numNodes boundingRegion d dataProvider APIkey databaseName g
  = (Ret locs, g', t) ->
  length locs = Z.to_nat numNodes.
Proof.
  intros H. apply _genNodesRoadBased_rounds in H as (rs & _ & -> & Hrs & Hexit).
  destruct rs as [| r rs].
  - simpl in *. lia.
  - pose proof Hrs as (Hpos & _). simpl in Hpos.
    pose proof (roundsFrom_bound _ _ _ _ Hrs) as Hle.
    change ([] ++ ?l) with l in Hle. specialize (Hle ltac:(simpl; lia)).
    lia.
Qed.

(** *** Rounds, however the run ends *)

Lemma for_each_count {A St} p c (body : A -> St -> M St) xs :
  (forall x s (g : G) r g' t, body x s g = (r, g', t) -> (count_events p t <= c)%nat) ->
  forall s (g : G) r g' t,
    for_each xs body s g = (r, g', t) -> (count_events p t <= length xs * c)%nat.
Proof.
  intros Hb. induction xs as [| x xs IH]; intros s g r g' t H; simpl in H.
  - unfold ret in H. injection H as _ _ <-. unfold count_events. simpl. lia.
  - apply bind_inv in H as [(s1 & g1 & t1 & t2 & H1 & H2 & ->) | [(e & H1 & _) | (H1 & _)]].
    + rewrite count_events_app. apply Hb in H1. apply IH in H2. simpl. lia.
    + apply Hb in H1. simpl. lia.
    + apply Hb in H1. simpl. lia.
Qed.

(** A batch, however it ends: one triangulation, no more picks than
    points asked for, and no call of the adapter. *)
Lemma _genNodesUniformBounded_counts numNodes (boundingRegion : polygon) (g : G) r g' t :
  _genNodesUniformBounded numNodes boundingRegion g = (r, g', t) ->
  count_events is_earclip t = 1%nat
  /\ (count_events is_pick t <= Z.to_nat numNodes)%nat
  /\ count_events is_snap t = 0%nat.
Proof.
  intros H.
  assert (Hsnap : count_events is_snap t = 0%nat).
  { apply count_events_none. eapply _genNodesUniformBounded_emits. exact H. }
  unfold _genNodesUniformBounded in H.
  apply bind_inv in H as [(lstTriangle & g1 & t1 & t2 & H1 & H2 & ->) | [(e & H1 & _) | (H1 & _)]];
    apply earclip_inv in H1 as (_ & _ & ->);
    [| split; [reflexivity | split; [unfold count_events; simpl; lia | exact Hsnap]] ..].
  split; [| split; [| exact Hsnap]].
  - rewrite count_events_app.
    rewrite (count_events_none is_earclip t2); [reflexivity |].
    eapply Forall_impl; [eapply _genNodesUniformBounded_draws_emit; exact H2 |].
    intros ev [Hev _]. exact Hev.
  - rewrite count_events_app. change (count_events is_pick [EvEarclip boundingRegion]) with 0%nat.
    apply bind_inv in H2 as [(lstArea & g2 & t3 & t4 & Ha & Hloop & ->) | [(e & Ha & _) | (Ha & _)]];
      pose proof (no_event_nil _ (triangleAreas_emits _ _ _ _ _ Ha)) as Hnil; subst;
      [| unfold count_events; simpl; lia ..].
    unfold for_range in Hloop. eapply (for_each_count is_pick 1) in Hloop.
    + rewrite length_seq in Hloop. simpl. lia.
    + clear. intros _ s g r g' t Hb.
      apply bind_inv in Hb as [(idx & g1 & t1 & t2 & Hp & Hk & ->) | [(e & Hp & _) | (Hp & _)]];
        apply call_inv in Hp as (_ & ->); [| unfold count_events; simpl; lia ..].
      rewrite count_events_app. rewrite (count_events_none is_pick t2); [reflexivity |].
      revert Hk. generalize g1 r g' t2.
      change (emits (fun ev => is_pick ev = false)
                (tri <- index_Z lstTriangle idx ;;
                 newLoc <- _genNodesUniformTriangle 1 tri ;;
                 ret (s ++ newLoc))).
      apply emits_bind; [auto with emits | intros tri].
      apply emits_bind; [| intros newLoc; auto with emits].
      eapply emits_weaken; [| apply _genNodesUniformTriangle_emits].
      intros ev ->. reflexivity.
Qed.

Lemma batchTrace_no_snap region lstArea n args res :
  EvSnap args res ∈ batchTrace region lstArea n -> False.
Proof.
  intros Hin. pose proof (count_events_elem is_snap _ _ Hin eq_refl) as Hpos.
  rewrite batchTrace_snaps in Hpos. lia.
Qed.

(** One pass through the body of the road sampler's loop that does not
    come back with a list. *)
Lemma round_cut_short numNodes (boundingRegion : polygon) d dataProvider APIkey databaseName
    (locs : list loc) (g : G) res g' t :
  (newLocs <- _genNodesUniformBounded numNodes boundingRegion ;;
   snapLocs <- snap [PyLocs newLocs; dataProvider; APIkey; databaseName] ;;
   keepCloseToRoad d newLocs snapLocs locs) g = (res, g', t) ->
  (forall x, res <> Ret x) ->
  cutShort boundingRegion dataProvider APIkey databaseName (Z.to_nat numNodes) t.
Proof.
  intros H Hres.
  assert (Hshape : forall newLocs lstArea r,
             length newLocs = Z.to_nat numNodes ->
             cutShort boundingRegion dataProvider APIkey databaseName (Z.to_nat numNodes)
               (batchTrace boundingRegion lstArea (Z.to_nat numNodes)
                ++ [EvSnap [PyLocs newLocs; dataProvider; APIkey; databaseName] r])).
  { intros newLocs lstArea r Hlen. unfold cutShort.
    rewrite !count_events_app, batchTrace_earclips, batchTrace_picks, batchTrace_snaps.
    unfold count_events. cbn [List.filter length is_earclip is_pick is_snap].
    split; [lia | split; [lia | split; [lia |]]].
    intros args res' Hin. exists newLocs, lstArea. split; [exact Hlen |].
    apply elem_of_app in Hin as [Hin | Hin]; [destruct (batchTrace_no_snap _ _ _ _ _ Hin) |].
    apply list_elem_of_singleton in Hin. injection Hin as _ <-. reflexivity. }
  apply bind_inv in H as [(newLocs & g1 & t1 & t2 & Hnew & H & ->) | [(e & Hnew & _) | (Hnew & _)]].
  - apply _genNodesUniformBounded_Ret in Hnew as (lstTriangle & lstArea & _ & _ & Hlen & ->).
    apply bind_inv in H as [(snapLocs & g2 & t3 & t4 & Hsnap & H & ->) | [(e & Hsnap & _) | (Hsnap & _)]];
      apply snap_inv in Hsnap as (_ & ->); [| apply Hshape; exact Hlen ..].
    pose proof (no_event_nil _ (keepCloseToRoad_emits _ _ _ _ _ _ _ _ H)) as ->.
    rewrite app_nil_r. apply Hshape. exact Hlen.
  - pose proof (_genNodesUniformBounded_counts _ _ _ _ _ _ Hnew) as (He & Hp & Hs).
    unfold cutShort. split; [lia | split; [lia | split; [lia |]]].
    intros args res' Hin. pose proof (count_events_elem is_snap _ _ Hin eq_refl). lia.
  - pose proof (_genNodesUniformBounded_counts _ _ _ _ _ _ Hnew) as (He & Hp & Hs).
    unfold cutShort. split; [lia | split; [lia | split; [lia |]]].
    intros args res' Hin. pose proof (count_events_elem is_snap _ _ Hin eq_refl). lia.
Qed.

(** The loop of the road sampler from any number of nodes already found:
    complete rounds, then nothing more if it returns, or else a round cut
    short. *)
Lemma roadBased_loop_rounds numNodes (boundingRegion : polygon) d
    dataProvider APIkey databaseName fuel :
  forall (have : list loc) (g : G) res g' t,
    while fuel
      (fun locs => Z.of_nat (length locs) <? numNodes)
      (fun locs =>
         newLocs <- _genNodesUniformBounded (numNodes - Z.of_nat (length locs)) boundingRegion ;;
         snapLocs <- snap [PyLocs newLocs; dataProvider; APIkey; databaseName] ;;
         keepCloseToRoad d newLocs snapLocs locs)
      have g = (res, g', t) ->
    exists rs rest,
      t = concat (map (roundTrace boundingRegion dataProvider APIkey databaseName) rs) ++ rest
      /\ roundsFrom numNodes d have rs
      /\ match res with
         | Ret locs => rest = [] /\ locs = have ++ concat (map (roundAccepted d) rs)
         | _ =>
             Z.of_nat (length (have ++ concat (map (roundAccepted d) rs))) < numNodes
             /\ cutShort boundingRegion dataProvider APIkey databaseName
                  (Z.to_nat (numNodes
                             - Z.of_nat (length (have ++ concat (map (roundAccepted d) rs)))))
                  rest
         end.
Proof.
  assert (Hidle : forall k, cutShort boundingRegion dataProvider APIkey databaseName k []).
  { intros k. unfold cutShort, count_events. simpl.
    split; [lia | split; [lia | split; [lia |]]].
    intros args r Hin. apply elem_of_nil in Hin. contradiction. }
  induction fuel as [| fuel IH]; intros have g res g' t H; simpl in H;
    destruct (Z.of_nat (length have) <? numNodes) eqn:Hcond.
  - unfold timeout in H. injection H as <- _ <-.
    exists [], []. simpl. rewrite app_nil_r. apply Z.ltb_lt in Hcond. auto.
  - unfold ret in H. injection H as <- _ <-.
    exists [], []. simpl. rewrite app_nil_r. auto.
  - apply Z.ltb_lt in Hcond.
    apply bind_inv in H as [(have' & g1 & t1 & t2 & Hb & Hrest & ->) | [(e & Hb & ->) | (Hb & ->)]].
    + apply bind_Ret_inv in Hb as (newLocs & ga & ? & ? & Hnew & Hb & ->).
      apply bind_Ret_inv in Hb as (snapLocs & gb & ? & ? & Hsnap & Hb & ->).
      apply snap_inv in Hsnap as (Hsnap & ->).
      apply keepCloseToRoad_Ret in Hb as (-> & Hlen & -> & ->).
      apply _genNodesUniformBounded_Ret in Hnew as (lstTriangle & lstArea & _ & _ & Hn & ->).
      apply IH in Hrest as (rs & rest & -> & Hrs & Hend).
      set (r0 := {| candidates := newLocs; snapped := snapLocs; areas := lstArea |}).
      assert (Hr0 : roundTrace boundingRegion dataProvider APIkey databaseName r0
                    = batchTrace boundingRegion lstArea
                        (Z.to_nat (numNodes - Z.of_nat (length have)))
                      ++ [EvSnap [PyLocs newLocs; dataProvider; APIkey; databaseName]
                            (Ret snapLocs)]).
      { unfold roundTrace, r0. cbn [candidates snapped areas]. rewrite Hn. reflexivity. }
      exists (r0 :: rs), rest. split; [| split].
      * cbn [map concat]. rewrite Hr0, ?app_nil_r, <- ?app_assoc. reflexivity.
      * cbn [roundsFrom]. unfold r0 at 1 2. cbn [candidates snapped].
        split; [exact Hcond | split; [lia | split; [exact Hlen | exact Hrs]]].
      * cbn [map concat]. change (roundAccepted d r0) with (accepted d newLocs snapLocs).
        rewrite (app_assoc have). exact Hend.
    + exists [], t. cbn [map concat]. rewrite app_nil_r.
      split; [reflexivity | split; [exact I | split; [exact Hcond |]]].
      eapply round_cut_short; [exact Hb | discriminate].
    + exists [], t. cbn [map concat]. rewrite app_nil_r.
      split; [reflexivity | split; [exact I | split; [exact Hcond |]]].
      eapply round_cut_short; [exact Hb | discriminate].
  - unfold ret in H. injection H as <- _ <-.
    exists [], []. simpl. rewrite app_nil_r. auto.
Qed.

(** ** The samplers *)

(** C1. Each of the four samplers that returns, returns exactly [numNodes]
    coordinates: the three [for] loops append one coordinate per
    iteration, and the road sampler leaves its [while] loop with neither
    fewer nor more than [numNodes] accepted candidates. *)
Theorem samplers_return_numNodes (numNodes : Z) :
  0 <= numNodes ->
  (forall boundingRegion (g : G) locs g' t,
      _genNodesUniformBounded numNodes boundingRegion g = (Ret locs, g', t) ->
      Z.of_nat (length locs) = numNodes)
  /\ (forall center standardDeviation (g : G) locs g' t,
         _genNodesNormal numNodes center standardDeviation g = (Ret locs, g', t) ->
         Z.of_nat (length locs) = numNodes)
  /\ (forall fuel boundingRegion center standardDeviation (g : G) locs g' t,
         _genNodesNormalBounded fuel numNodes boundingRegion center standardDeviation g
         = (Ret locs, g', t) ->
         Z.of_nat (length locs) = numNodes)
  /\ (forall fuel boundingRegion distToRoad dataProvider APIkey databaseName (g : G) locs g' t,
         _genNodesRoadBased fuel numNodes boundingRegion distToRoad
           dataProvider APIkey databaseName g = (Ret locs, g', t) ->
         Z.of_nat (length locs) = numNodes).
Proof.
  intros Hpos. repeat split.
  - intros region g locs g' t H.
    apply _genNodesUniformBounded_Ret in H as (_ & _ & _ & _ & Hlen & _). lia.
  - intros center sd g locs g' t H.
    apply _genNodesNormal_Ret in H as (Hlen & _). lia.
  - intros fuel region center sd g locs g' t H.
    apply _genNodesNormalBounded_Ret in H as (Hlen & _). lia.
  - intros fuel region d provider APIkey db g locs g' t H.
    apply _genNodesRoadBased_length in H. lia.
Qed.

(** C2. Every coordinate the normal-bounded sampler returns passes
    [geoIsPointInPoly] against the bounding region, and is a point drawn
    around the centre: a drawn point, the first one included, is appended
    only once the test holds. *)
Theorem normalBounded_points_inside fuel numNodes (boundingRegion : polygon) (center : loc)
    standardDeviation (g : G) locs g' t :
  _genNodesNormalBounded fuel numNodes boundingRegion center standardDeviation g
  = (Ret locs, g', t) ->
  forall p, p ∈ locs ->
    geoIsPointInPoly p boundingRegion = true
    /\ exists rndUniform rndNormal, p = geoPointInDistance2D center rndUniform rndNormal.
Proof.
  intros H p Hp. apply _genNodesNormalBounded_Ret in H as (_ & Hall).
  rewrite Forall_forall in Hall. apply Hall. exact Hp.
Qed.

(** C3. The road sampler returns exactly the candidates that pass the
    distance test, in the order drawn: each returned coordinate is a
    candidate as it was handed to the adapter, not the adapter's answer,
    and its planar distance to the answer at the same position is at most
    [distToRoad]. *)
Theorem roadBased_keeps_close_candidates fuel numNodes (boundingRegion : polygon) distToRoad
    dataProvider APIkey databaseName (g : G) locs g' t :
  _genNodesRoadBased fuel numNodes boundingRegion distToRoad dataProvider APIkey databaseName g
  = (Ret locs, g', t) ->
  locs = acceptedOfTrace distToRoad t
  /\ forall p, p ∈ locs ->
       exists newLocs snapLocs (i : nat) s,
         EvSnap [PyLocs newLocs; dataProvider; APIkey; databaseName] (Ret snapLocs) ∈ t
         /\ newLocs !! i = Some p
         /\ snapLocs !! i = Some s
         /\ (geoDistance2D p s <=? distToRoad)%float = true.
Proof.
  intros H. apply _genNodesRoadBased_rounds in H as (rs & -> & -> & _ & _).
  split; [symmetry; apply acceptedOfTrace_rounds |].
  intros p Hp. apply list_elem_of_In, in_concat in Hp as (l & Hl & Hpl).
  apply in_map_iff in Hl as (r & <- & Hr).
  apply list_elem_of_In, accepted_elem in Hpl as (i & s & Hc & Hs & Hd).
  exists (candidates r), (snapped r), i, s. repeat split; try assumption.
  apply list_elem_of_In, in_concat.
  exists (roundTrace boundingRegion dataProvider APIkey databaseName r). split.
  - apply in_map. exact Hr.
  - unfold roundTrace. apply in_or_app. right. left. reflexivity.
Qed.

(** The loop of [_genNodesUniformTriangle] on draws that are given. *)
Lemma uniformTriangle_loop_returns lat1 lon1 lat2 lon2 lat3 lon3 n (g : G) ps g' :
  uniformPairs n g ps g' ->
  Forall (fun r => (fst r <? 0)%float = false) ps ->
  forall a acc,
    for_each (seq a n) (fun (_ : nat) (locs : list loc) =>
      rndR1 <- uniform 0 1 ;;
      rndR2 <- uniform 0 1 ;;
      a1 <- math_sqrt rndR1 ;;
      a2 <- math_sqrt rndR1 ;;
      a3 <- math_sqrt rndR1 ;;
      let rndLat := ((1 - a1) * lat1 + a2 * (1 - rndR2) * lat2 + a3 * rndR2 * lat3)%float in
      b1 <- math_sqrt rndR1 ;;
      b2 <- math_sqrt rndR1 ;;
      b3 <- math_sqrt rndR1 ;;
      let rndLon := ((1 - b1) * lon1 + b2 * (1 - rndR2) * lon2 + b3 * rndR2 * lon3)%float in
      ret (locs ++ [[rndLat; rndLon]])) acc g
    = (Ret (acc ++ map (barycentricLoc lat1 lon1 lat2 lon2 lat3 lon3) ps), g',
       concat (replicate n [EvUniform 0 1; EvUniform 0 1])).
Proof.
  induction 1 as [g | n g r1 g1 r2 g2 ps g' H1 H2 _ IH]; intros Hpos a acc.
  - simpl. rewrite app_nil_r. reflexivity.
  - apply Forall_cons in Hpos as [Hr1 Hpos]. simpl in Hr1.
    match goal with
    | |- for_each _ ?body _ _ = _ =>
        assert (Hbody : body a acc g
                        = (Ret (acc ++ [barycentricLoc lat1 lon1 lat2 lon2 lat3 lon3 (r1, r2)]),
                           g2, [EvUniform 0 1; EvUniform 0 1]))
    end.
    { unfold bind, uniform, call, math_sqrt, ret. rewrite H1, H2, Hr1. reflexivity. }
    cbn [seq for_each].
    etransitivity;
      [eapply bind_Ret_intro; [exact Hbody | exact (IH Hpos (S a) _)] |].
    rewrite <- app_assoc. reflexivity.
Qed.

(** C4. The triangle sampler returns [locs] exactly when [locs] is the
    image, under the barycentric transform
    (1 - sqrt r1) V1 + sqrt r1 (1 - r2) V2 + sqrt r1 r2 V3,
    of [numNodes] pairs [(r1, r2)] of successive draws of
    [np.random.uniform(0, 1)]: two draws per point, the same pair for the
    latitude and for the longitude. *)
Theorem uniformTriangle_is_barycentric numNodes lat1 lon1 lat2 lon2 lat3 lon3
    (g : G) locs g' t :
  _genNodesUniformTriangle numNodes [[lat1; lon1]; [lat2; lon2]; [lat3; lon3]] g
  = (Ret locs, g', t)
  <-> exists ps,
        uniformPairs (Z.to_nat numNodes) g ps g'
        /\ Forall (fun r => (fst r <? 0)%float = false) ps
        /\ locs = map (barycentricLoc lat1 lon1 lat2 lon2 lat3 lon3) ps
        /\ t = concat (replicate (Z.to_nat numNodes) [EvUniform 0 1; EvUniform 0 1]).
Proof.
  split.
  - intros H. apply _genNodesUniformTriangle_Ret in H
      as (a1 & b1 & a2 & b2 & a3 & b3 & ps & [= <- <-] & [= <- <-] & [= <- <-] & H).
    exists ps. exact H.
  - intros (ps & Hps & Hpos & -> & ->).
    unfold _genNodesUniformTriangle, for_range, index, unpack2.
    cbn [lookup list_lookup]. rewrite !bind_ret_l.
    exact (uniformTriangle_loop_returns lat1 lon1 lat2 lon2 lat3 lon3 _ _ _ _ Hps Hpos 0%nat []).
Qed.

(** C5. However a call of the polygon sampler ends, it triangulates the
    bounding region once, first thing.  When it returns, its calls are
    that one triangulation followed by [numNodes] times a weighted pick
    and the two draws of a point in a triangle; every pick is made on the
    one list of areas computed from the one list of triangles, every
    answer of a pick is looked up in that one list of triangles, and the
    point returned for it is the one drawn in the triangle found there
    ([pickedPoints]). *)
Theorem uniformBounded_triangulates_once numNodes (boundingRegion : polygon) (g : G) r g' t :
  _genNodesUniformBounded numNodes boundingRegion g = (r, g', t) ->
  count_events is_earclip t = 1%nat
  /\ (exists t', t = EvEarclip boundingRegion :: t')
  /\ forall locs, r = Ret locs ->
       exists lstTriangle lstArea,
         tripy_earclip boundingRegion = Ret lstTriangle
         /\ triangleAreas lstTriangle g = (Ret lstArea, g, [])
         /\ pickedPoints lstTriangle lstArea (Z.to_nat numNodes) g locs g'
         /\ t = batchTrace boundingRegion lstArea (Z.to_nat numNodes)
         /\ count_events is_pick t = Z.to_nat numNodes.
Proof.
  intros H. split; [| split].
  - unfold _genNodesUniformBounded in H.
    destruct (bind_inv _ _ _ _ _ _ H)
      as [(lstTriangle & g1 & t1 & t2 & H1 & H2 & ->) | [(e & H1 & _) | (H1 & _)]];
      apply earclip_inv in H1 as (_ & _ & ->).
    + rewrite count_events_app.
      rewrite (count_events_none is_earclip t2); [reflexivity |].
      eapply Forall_impl; [eapply _genNodesUniformBounded_draws_emit; exact H2 |].
      intros ev [Hev _]. exact Hev.
    + reflexivity.
    + reflexivity.
  - unfold _genNodesUniformBounded in H.
    destruct (bind_inv _ _ _ _ _ _ H)
      as [(lstTriangle & g1 & t1 & t2 & H1 & H2 & ->) | [(e & H1 & _) | (H1 & _)]];
      apply earclip_inv in H1 as (_ & _ & ->); eauto.
  - intros locs ->.
    pose proof (_genNodesUniformBounded_picked _ _ _ _ _ _ H)
      as (lstTriangle & lstArea & Hclip & Hareas & Hpicked).
    apply _genNodesUniformBounded_Ret in H as (lstTriangle' & lstArea' & Hclip' & Hareas' & _ & ->).
    rewrite Hclip in Hclip'. injection Hclip' as <-.
    rewrite Hareas in Hareas'. injection Hareas' as <-.
    exists lstTriangle, lstArea. repeat split; try assumption.
    apply batchTrace_picks.
Qed.

(** C7. However a run of the road sampler ends, its calls are a sequence
    of complete rounds, followed by nothing when it returns and by a
    round cut short when it raises or does not end within the budget.
    Each complete round draws as many candidates as are still missing
    ([numNodes] minus the number accepted in the rounds before,
    [roundsFrom]), with one triangulation and one weighted pick per
    candidate, and ends with a single call of the adapter on the whole
    batch.  A round cut short draws no more than are missing; if it
    reaches the adapter, it has drawn exactly as many as are missing and
    hands them over in one call ([cutShort]). *)
Theorem roadBased_rounds_draw_what_is_missing fuel numNodes (boundingRegion : polygon)
    distToRoad dataProvider APIkey databaseName (g : G) res g' t :
  _genNodesRoadBased fuel numNodes boundingRegion distToRoad dataProvider APIkey databaseName g
  = (res, g', t) ->
  exists rs rest,
    t = concat (map (roundTrace boundingRegion dataProvider APIkey databaseName) rs) ++ rest
    /\ roundsFrom numNodes distToRoad [] rs
    /\ Forall (fun r =>
         let tr := roundTrace boundingRegion dataProvider APIkey databaseName r in
         count_events is_pick tr = length (candidates r)
         /\ count_events is_earclip tr = 1%nat
         /\ count_events is_snap tr = 1%nat) rs
    /\ match res with
       | Ret locs => rest = [] /\ locs = concat (map (roundAccepted distToRoad) rs)
       | _ =>
           Z.of_nat (length (concat (map (roundAccepted distToRoad) rs))) < numNodes
           /\ cutShort boundingRegion dataProvider APIkey databaseName
                (Z.to_nat (numNodes
                           - Z.of_nat (length (concat (map (roundAccepted distToRoad) rs)))))
                rest
       end.
Proof.
  unfold _genNodesRoadBased. intros H.
  apply roadBased_loop_rounds in H as (rs & rest & Ht & Hrs & Hend).
  exists rs, rest. split; [exact Ht |]. split; [exact Hrs |]. split; [| exact Hend].
  apply Forall_forall. intros r _. unfold roundTrace.
  rewrite !count_events_app, batchTrace_picks, batchTrace_earclips, batchTrace_snaps.
  unfold count_events. simpl. repeat split; lia.
Qed.
End SamplerFacts.

(** ** Returning

    The budget [fuel] of a [while] loop is not part of the program: a run
    that ends within a budget ends the same way within any larger one.
    The sampler without a [while] loop returns whenever the generator
    does. *)

Section Returning.
Context {G Nodes : Type} {C : Collaborators G Nodes}.
Local Abbreviation M := (M (G:=G)).

Lemma bind_more {A B} (m m' : M A) (k k' : A -> M B) g r g' t :
  bind m k g = (r, g', t) -> r <> Timeout ->
  (forall r1 g1 t1, m g = (r1, g1, t1) -> r1 <> Timeout -> m' g = (r1, g1, t1)) ->
  (forall a g1 r2 g2 t2, k a g1 = (r2, g2, t2) -> r2 <> Timeout -> k' a g1 = (r2, g2, t2)) ->
  bind m' k' g = (r, g', t).
Proof.
  intros H Hr Hm Hk.
  destruct (bind_inv _ _ _ _ _ _ H)
    as [(a & g1 & t1 & t2 & H1 & H2 & ->) | [(e & H1 & ->) | (_ & ->)]].
  - eapply bind_Ret_intro; [apply Hm; [exact H1 | discriminate] | apply Hk; assumption].
  - unfold bind. rewrite (Hm _ _ _ H1) by discriminate. reflexivity.
  - contradiction.
Qed.

Lemma while_more_fuel {St} cond (body : St -> M St) fuel :
  forall fuel' s g r g' t,
    while fuel cond body s g = (r, g', t) -> r <> Timeout -> (fuel <= fuel')%nat ->
    while fuel' cond body s g = (r, g', t).
Proof.
  induction fuel as [| fuel IH]; intros fuel' s g r g' t H Hr Hle.
  - destruct fuel'; simpl in *; destruct (cond s); try exact H;
      injection H as <- _ _; contradiction.
  - destruct fuel' as [| fuel']; [lia |]. simpl in *.
    destruct (cond s); [| exact H].
    eapply bind_more; [exact H | exact Hr | auto |].
    intros a g1 r2 g2 t2 H2 Hr2. apply IH; [assumption | assumption | lia].
Qed.

Lemma for_each_more {A St} (body body' : A -> St -> M St) xs :
  (forall x s g r g' t, body x s g = (r, g', t) -> r <> Timeout -> body' x s g = (r, g', t)) ->
  forall s g r g' t,
    for_each xs body s g = (r, g', t) -> r <> Timeout -> for_each xs body' s g = (r, g', t).
Proof.
  intros Hb. induction xs as [| x xs IH]; intros s g r g' t H Hr; simpl in *.
  - exact H.
  - eapply bind_more; [exact H | exact Hr | |].
    + intros r1 g1 t1. apply Hb.
    + intros a g1 r2 g2 t2. apply IH.
Qed.

Lemma for_each_returns {A St} (body : A -> St -> M St) :
  (forall x s g, exists s' g' t, body x s g = (Ret s', g', t)) ->
  forall xs s g, exists s' g' t, for_each xs body s g = (Ret s', g', t).
Proof.
  intros Hb xs. induction xs as [| x xs IH]; intros s g; simpl.
  - eexists _, _, _. reflexivity.
  - destruct (Hb x s g) as (s1 & g1 & t1 & H1).
    destruct (IH s1 g1) as (s2 & g2 & t2 & H2).
    eexists _, _, _. eapply bind_Ret_intro; eassumption.
Qed.

(** The iteration budget belongs to the embedding, not to the code, whose
    loops have no bound.  It does not show in the runs that end: a run of
    a rejection sampler that ends within [fuel] iterations of each of its
    [while] loops ends the same way within any larger budget. *)
Lemma rejection_samplers_more_fuel fuel fuel' numNodes (boundingRegion : polygon) :
  (fuel <= fuel')%nat ->
  (forall center standardDeviation (g : G) r g' t,
      _genNodesNormalBounded fuel numNodes boundingRegion center standardDeviation g
      = (r, g', t) ->
      r <> Timeout ->
      _genNodesNormalBounded fuel' numNodes boundingRegion center standardDeviation g
      = (r, g', t))
  /\ (forall distToRoad dataProvider APIkey databaseName (g : G) r g' t,
         _genNodesRoadBased fuel numNodes boundingRegion distToRoad
           dataProvider APIkey databaseName g = (r, g', t) ->
         r <> Timeout ->
         _genNodesRoadBased fuel' numNodes boundingRegion distToRoad
           dataProvider APIkey databaseName g = (r, g', t)).
Proof.
  intros Hle. split.
  - intros center sd g r g' t H Hr. unfold _genNodesNormalBounded, for_range in *.
    eapply for_each_more; [| exact H | exact Hr].
    clear H Hr. intros i s g0 r0 g0' t0 H Hr.
    eapply bind_more; [exact H | exact Hr | auto |].
    intros u g1 r2 g2 t2 H2 Hr2.
    eapply bind_more; [exact H2 | exact Hr2 | auto |].
    intros v g3 r4 g4 t4 H4 Hr4.
    eapply bind_more; [exact H4 | exact Hr4 | | auto].
    intros r5 g5 t5 H5 Hr5. eapply while_more_fuel; eassumption.
  - intros d provider APIkey db g r g' t H Hr. unfold _genNodesRoadBased in *.
    eapply while_more_fuel; eassumption.
Qed.

(** X2. The normal sampler has no [while] loop: it returns [numNodes]
    coordinates whenever the generator returns its draws. *)
Theorem _genNodesNormal_returns numNodes (center : loc) standardDeviation (g : G) :
  (forall g0, exists x g1, np_random_uniform 0 360 g0 = (Ret x, g1)) ->
  (forall g0, exists x g1, np_random_normal 0 standardDeviation g0 = (Ret x, g1)) ->
  exists locs g' t,
    _genNodesNormal numNodes center standardDeviation g = (Ret locs, g', t)
    /\ length locs = Z.to_nat numNodes.
Proof.
  intros Hu Hn.
  destruct (for_each_returns
              (fun (_ : nat) (locs : list loc) =>
                 rndUniform <- uniform 0 360 ;;
                 rndNormal <- normal 0 standardDeviation ;;
                 let newLoc := geoPointInDistance2D center rndUniform rndNormal in
                 ret (locs ++ [newLoc]))) with (xs := seq 0 (Z.to_nat numNodes)) (s := @nil loc)
    (g := g) as (locs & g' & t & H).
  - intros i s g0. destruct (Hu g0) as (u & g1 & H1).
    destruct (Hn g1) as (v & g2 & H2).
    eexists _, _, _. unfold bind, uniform, normal, call, ret. rewrite H1, H2. reflexivity.
  - exists locs, g', t. split; [exact H |].
    apply _genNodesNormal_Ret in H as (Hlen & _). exact Hlen.
Qed.
End Returning.

(** ** The orchestrator *)

Section GenerateFacts.
Context {G Nodes : Type} {C : Collaborators G Nodes}.
Local Abbreviation M := (M (G:=G)).

Lemma is_dispatched_false nodeDistrib :
  is_dispatched nodeDistrib = false ->
  tag_is nodeDistrib "uniformBB" = false /\ tag_is nodeDistrib "normal" = false
  /\ tag_is nodeDistrib "normalBB" = false /\ tag_is nodeDistrib "unifRoadBasedBB" = false.
Proof.
  unfold is_dispatched, dispatched. simpl. intros H.
  repeat (apply orb_false_elim in H as [? H]). auto.
Qed.

Lemma generateNodes_locs_unknown fuel o numNodes nodeDistrib nodeDistribArgs :
  is_dispatched nodeDistrib = false ->
  generateNodes_locs fuel o numNodes nodeDistrib nodeDistribArgs = ret None.
Proof.
  intros H. apply is_dispatched_false in H as (H1 & H2 & H3 & H4).
  unfold generateNodes_locs. rewrite H1, H2, H3, H4. reflexivity.
Qed.

Lemma generateNodes_locs_assigns fuel o numNodes nodeDistrib nodeDistribArgs (g : G) g' t :
  is_dispatched nodeDistrib = true ->
  generateNodes_locs fuel o numNodes nodeDistrib nodeDistribArgs g <> (Ret None, g', t).
Proof.
  unfold is_dispatched, dispatched, generateNodes_locs. simpl. intros Htag H.
  destruct (tag_is nodeDistrib "uniformBB");
    [| destruct (tag_is nodeDistrib "normal");
       [destruct (contains nodeDistribArgs "boundingRegion")
       | destruct (tag_is nodeDistrib "normalBB");
         [| destruct (tag_is nodeDistrib "unifRoadBasedBB"); [| discriminate Htag]]]];
    simpl in H; invert_run; discriminate.
Qed.

(** C8, as the code has it.  When validation fails, [generateNodes] prints
    the error message and returns nothing ([None]): it raises no exception.
    Its only calls are the validation and the print; it does no
    triangulation, no random draw, no road snap, and builds no nodes. *)
Theorem generateNodes_invalid_prints_and_returns fuel o numNodes nodeDistrib nodeDistribArgs
    (g : G) errorMsg warningMsg g1 :
  valGenerateNodes o numNodes nodeDistrib nodeDistribArgs g
  = (Ret (false, errorMsg, warningMsg), g1) ->
  exists t,
    generateNodes fuel o numNodes nodeDistrib nodeDistribArgs g = (Ret None, g1, t)
    /\ t = [EvValidate; EvPrint errorMsg]
    /\ count_events is_sampling t = 0%nat
    /\ count_events is_create t = 0%nat.
Proof.
  intros Hval. exists [EvValidate; EvPrint errorMsg].
  unfold generateNodes, bind, call, print, ret. rewrite Hval. simpl. auto.
Qed.

(** C9. With a ['boundingRegion'] key in the parameter bag, the branch of
    ['normal'] is the branch of ['normalBB']: the same lookups, then the
    bounded normal sampler on the same arguments; so are the two calls of
    [generateNodes] wherever validation treats the two tags alike.  With
    the three keys present, both are the call
    [_genNodesNormalBounded(numNodes, boundingRegion, center, stdDev)]. *)
Theorem normal_with_region_is_normalBB fuel o numNodes nodeDistribArgs :
  contains nodeDistribArgs "boundingRegion" = true ->
  generateNodes_locs fuel o numNodes (Some "normal") nodeDistribArgs
  = generateNodes_locs fuel o numNodes (Some "normalBB") nodeDistribArgs
  /\ (forall g : G,
        valGenerateNodes o numNodes (Some "normal") nodeDistribArgs g
        = valGenerateNodes o numNodes (Some "normalBB") nodeDistribArgs g ->
        generateNodes fuel o numNodes (Some "normal") nodeDistribArgs g
        = generateNodes fuel o numNodes (Some "normalBB") nodeDistribArgs g)
  /\ (forall boundingRegion center standardDeviation (g : G),
        key_boundingRegion nodeDistribArgs = Some boundingRegion ->
        key_center nodeDistribArgs = Some center ->
        key_stdDev nodeDistribArgs = Some standardDeviation ->
        generateNodes_locs fuel o numNodes (Some "normal") nodeDistribArgs g
        = (locs <- _genNodesNormalBounded fuel numNodes boundingRegion center standardDeviation ;;
           ret (Some locs)) g).
Proof.
  intros Hin.
  assert (Heq : generateNodes_locs fuel o numNodes (Some "normal") nodeDistribArgs
                = generateNodes_locs fuel o numNodes (Some "normalBB") nodeDistribArgs).
  { unfold generateNodes_locs. simpl. rewrite Hin. reflexivity. }
  split; [exact Heq | split].
  - intros g Hval. unfold generateNodes, bind, call. rewrite Hval, Heq. reflexivity.
  - intros region center sd g Hr Hc Hs.
    unfold generateNodes_locs. simpl. rewrite Hin. simpl.
    unfold getitem. rewrite Hr, Hc, Hs. rewrite !bind_ret_l. reflexivity.
Qed.

(** C10. When validation succeeds and [nodeDistrib] is none of the four
    tags the [if]/[elif] chain knows, no branch assigns [locs]:
    [generateNodes] fails with an unbound-local error where it would pass
    [locs] to the node constructor, having sampled nothing and built no
    nodes.  For each of the four tags the chain never falls through:
    if it completes, [locs] is assigned. *)
Theorem generateNodes_unknown_tag_unbound fuel o numNodes nodeDistrib nodeDistribArgs :
  (is_dispatched nodeDistrib = false ->
   forall (g : G) errorMsg warningMsg g1,
     valGenerateNodes o numNodes nodeDistrib nodeDistribArgs g
     = (Ret (true, errorMsg, warningMsg), g1) ->
     exists t,
       generateNodes fuel o numNodes nodeDistrib nodeDistribArgs g
       = (Raise (UnboundLocalError "locs"), g1, t)
       /\ count_events is_sampling t = 0%nat
       /\ count_events is_create t = 0%nat)
  /\ (is_dispatched nodeDistrib = true ->
      forall (g : G) g' t,
        generateNodes_locs fuel o numNodes nodeDistrib nodeDistribArgs g <> (Ret None, g', t)).
Proof.
  split.
  - intros Htag g errorMsg warningMsg g1 Hval.
    unfold generateNodes. rewrite (generateNodes_locs_unknown _ _ _ _ _ Htag).
    unfold bind, call, print, ret, raise. rewrite Hval. simpl.
    destruct (VRV_SETTING_SHOWWARNINGMESSAGE && negb (String.eqb warningMsg EmptyString));
      simpl; eexists; repeat split; reflexivity.
  - intros Htag g g' t. apply generateNodes_locs_assigns. exact Htag.
Qed.
End GenerateFacts.

(** ** The road sampler against the adapter of the specification *)

Lemma snapBatch_four_arguments {G : Type}
    (nearest : list loc -> pyval -> pyval -> G -> outcome (list loc) * G) a b c d g :
  snapBatch nearest [a; b; c; d] g = (Raise TypeError, g).
Proof. destruct a; reflexivity. Qed.

Section SpecAdapter.
Context {G Nodes : Type} {C : Collaborators G Nodes}.
Variable nearest : list loc -> pyval -> pyval -> G -> outcome (list loc) * G.
Hypothesis adapter_is_snapBatch :
  forall args g, privGetSnapLocBatch args g = snapBatch nearest args g.

(** Every call the road sampler makes to a three-parameter adapter is
    refused: the sampler passes four arguments. *)
Lemma roadBased_calls_refused fuel numNodes (boundingRegion : polygon) d
    dataProvider APIkey databaseName (g : G) r g' t :
  _genNodesRoadBased fuel numNodes boundingRegion d dataProvider APIkey databaseName g
  = (r, g', t) ->
  forall args res, EvSnap args res ∈ t -> length args = 4%nat /\ res = Raise TypeError.
Proof.
  intros H args res Hin.
  pose proof (_genNodesRoadBased_emits _ _ _ _ _ _ _ _ _ _ _ H) as Hall.
  rewrite Forall_forall in Hall.
  destruct (Hall _ Hin args res eq_refl) as (newLocs & g1 & g2 & -> & Hcall).
  rewrite adapter_is_snapBatch, snapBatch_four_arguments in Hcall.
  injection Hcall as <- _. auto.
Qed.

(** So the road sampler returns only when it is asked for nothing. *)
Lemma roadBased_never_returns fuel numNodes (boundingRegion : polygon) d
    dataProvider APIkey databaseName (g : G) locs g' t :
  0 < numNodes ->
  _genNodesRoadBased fuel numNodes boundingRegion d dataProvider APIkey databaseName g
  <> (Ret locs, g', t).
Proof.
  intros Hpos H.
  pose proof (roadBased_calls_refused _ _ _ _ _ _ _ _ _ _ _ H) as Hrefused.
  apply _genNodesRoadBased_rounds in H as (rs & -> & -> & _ & Hexit).
  destruct rs as [| r rs]; [simpl in Hexit; lia |].
  destruct (Hrefused [PyLocs (candidates r); dataProvider; APIkey; databaseName]
              (Ret (snapped r))) as [_ Hres]; [| discriminate Hres].
  cbn [map concat]. unfold roundTrace at 1.
  apply elem_of_app. left. apply elem_of_app. right.
  apply list_elem_of_singleton. reflexivity.
Qed.
End SpecAdapter.

(** ** Running computations forward *)

Section Forward.
Context {G : Type}.
Local Abbreviation M := (M (G:=G)).

Lemma bind_assoc {A B D} (m : M A) (k : A -> M B) (h : B -> M D) g :
  bind (bind m k) h g = bind m (fun a => bind (k a) h) g.
Proof.
  unfold bind. destruct (m g) as [[[a | e |] g1] t1]; try reflexivity.
  destruct (k a g1) as [[[b | e |] g2] t2]; try reflexivity.
  destruct (h b g2) as [[r g3] t3]. rewrite app_assoc. reflexivity.
Qed.

Lemma bind_ext_r {A B} (m : M A) (k k' : A -> M B) g :
  (forall a g1, k a g1 = k' a g1) -> bind m k g = bind m k' g.
Proof.
  intros Hk. unfold bind. destruct (m g) as [[[a | e |] g1] t1]; try reflexivity.
  rewrite Hk. reflexivity.
Qed.

Lemma bind_stop {A B} (m : M A) (k : A -> M B) g r g' t :
  m g = (r, g', t) -> (forall a, r <> Ret a) ->
  exists r', bind m k g = (r', g', t)
             /\ (forall e, r = Raise e -> r' = Raise e)
             /\ (r = Timeout -> r' = Timeout).
Proof.
  intros Hm Hr. unfold bind. rewrite Hm. destruct r as [a | e |].
  - destruct (Hr a eq_refl).
  - exists (Raise e). split; [reflexivity | split; [intros e' [= <-]; reflexivity | discriminate]].
  - exists Timeout. split; [reflexivity | split; [discriminate | reflexivity]].
Qed.

Lemma bind_Raise_intro {A B} (m : M A) (k : A -> M B) g e g' t :
  m g = (Raise e, g', t) -> bind m k g = (Raise e, g', t).
Proof. intros Hm. unfold bind. rewrite Hm. reflexivity. Qed.

Lemma bind_Timeout_intro {A B} (m : M A) (k : A -> M B) g g' t :
  m g = (Timeout, g', t) -> bind m k g = (Timeout, g', t).
Proof. intros Hm. unfold bind. rewrite Hm. reflexivity. Qed.

Lemma for_each_ext {A St} (body body' : A -> St -> M St) xs :
  (forall x s g, body x s g = body' x s g) ->
  forall s g, for_each xs body s g = for_each xs body' s g.
Proof.
  intros Hb. induction xs as [| x xs IH]; intros s g; simpl; [reflexivity |].
  unfold bind. rewrite Hb. destruct (body' x s g) as [[[s' | e |] g1] t1]; try reflexivity.
  rewrite IH. reflexivity.
Qed.

Lemma for_each_app {A St} (body : A -> St -> M St) xs ys s g :
  for_each (xs ++ ys) body s g = bind (for_each xs body s) (for_each ys body) g.
Proof.
  revert s g. induction xs as [| x xs IH]; intros s g; simpl.
  - rewrite bind_ret_l. reflexivity.
  - rewrite bind_assoc. apply bind_ext_r. intros s' g1. apply IH.
Qed.

Lemma while_exit {St} fuel cond (body : St -> M St) s g :
  cond s = false -> while fuel cond body s g = (Ret s, g, []).
Proof. intros Hc. destruct fuel; simpl; rewrite Hc; reflexivity. Qed.

Lemma while_step {St} fuel cond (body : St -> M St) s g :
  cond s = true ->
  while (S fuel) cond body s g = bind (body s) (while fuel cond body) g.
Proof. intros Hc. simpl. rewrite Hc. reflexivity. Qed.

(** A loop whose test never fails and whose body always returns uses up
    every budget. *)
Lemma while_never_exits {St} cond (body : St -> M St) :
  (forall s, cond s = true) ->
  (forall s g, exists s' g' t, body s g = (Ret s', g', t)) ->
  forall fuel s g, exists g' t, while fuel cond body s g = (Timeout, g', t).
Proof.
  intros Hc Hb. induction fuel as [| fuel IH]; intros s g; simpl; rewrite Hc.
  - eexists _, _. reflexivity.
  - destruct (Hb s g) as (s' & g1 & t1 & H1).
    destruct (IH s' g1) as (g2 & t2 & H2).
    eexists _, _. eapply bind_Ret_intro; eassumption.
Qed.
End Forward.

(** ** The samplers at their edges *)

Section SamplerEdges.
Context {G Nodes : Type} {C : Collaborators G Nodes}.
Local Abbreviation M := (M (G:=G)).

Lemma concat_replicate_add {A} n m (x : list A) :
  concat (replicate (n + m) x) = concat (replicate n x) ++ concat (replicate m x).
Proof. rewrite replicate_add, concat_app. reflexivity. Qed.

Lemma normalPairs_snoc sd n g ps g1 u g2 v g3 :
  normalPairs sd n g ps g1 ->
  np_random_uniform 0 360 g1 = (Ret u, g2) ->
  np_random_normal 0 sd g2 = (Ret v, g3) ->
  normalPairs sd (S n) g (ps ++ [(u, v)]) g3.
Proof.
  intros Hps H1 H2. induction Hps as [g | n g a ga b gb ps g' Ha Hb _ IH]; simpl.
  - econstructor; [exact H1 | exact H2 | constructor].
  - econstructor; [exact Ha | exact Hb | exact (IH H1)].
Qed.

Lemma normal_loop_returns (center : loc) sd n (g : G) ps g' :
  normalPairs sd n g ps g' ->
  forall a acc,
    for_each (seq a n) (fun (_ : nat) (locs : list loc) =>
      rndUniform <- uniform 0 360 ;;
      rndNormal <- normal 0 sd ;;
      let newLoc := geoPointInDistance2D center rndUniform rndNormal in
      ret (locs ++ [newLoc])) acc g
    = (Ret (acc ++ map (offsetLoc center) ps), g', concat (replicate n (normalDraws sd))).
Proof.
  induction 1 as [g | n g u g1 v g2 ps g' H1 H2 _ IH]; intros a acc.
  - simpl. rewrite app_nil_r. reflexivity.
  - match goal with
    | |- for_each _ ?body _ _ = _ =>
        assert (Hbody : body a acc g
                        = (Ret (acc ++ [offsetLoc center (u, v)]), g2, normalDraws sd))
    end.
    { unfold bind, uniform, normal, call, ret. rewrite H1, H2. reflexivity. }
    cbn [seq for_each].
    etransitivity; [eapply bind_Ret_intro; [exact Hbody | exact (IH (S a) _)] |].
    rewrite <- app_assoc. reflexivity.
Qed.

(** X3. The unbounded normal sampler returns [locs] exactly when [locs]
    lists, in order, the points [geoPointInDistance2D(center, u, v)] of
    [numNodes] successive pairs of draws: a bearing [u] from
    [np.random.uniform(0, 360)], then a distance [v] from
    [np.random.normal(0, standardDeviation)].  It makes no other call. *)
Theorem normal_is_offset_of_draws numNodes (center : loc) standardDeviation
    (g : G) locs g' t :
  _genNodesNormal numNodes center standardDeviation g = (Ret locs, g', t)
  <-> exists ps,
        normalPairs standardDeviation (Z.to_nat numNodes) g ps g'
        /\ locs = map (offsetLoc center) ps
        /\ t = concat (replicate (Z.to_nat numNodes) (normalDraws standardDeviation)).
Proof.
  split.
  - unfold _genNodesNormal. intros H.
    eapply (for_range_Ret _
      (fun i s g1 t1 =>
         exists ps, normalPairs standardDeviation i g ps g1
                    /\ s = map (offsetLoc center) ps
                    /\ t1 = concat (replicate i (normalDraws standardDeviation)))) in H.
    + exact H.
    + exists []. repeat split. constructor.
    + intros i s g1 t1 s' g2 t2 _ (ps & Hps & -> & ->) Hb.
      apply bind_Ret_inv in Hb as (u & ga & ? & ? & Hu & Hb & ->).
      apply call_inv in Hu as (Hu & ->).
      apply bind_Ret_inv in Hb as (v & gb & ? & ? & Hv & Hb & ->).
      apply call_inv in Hv as (Hv & ->).
      apply ret_inv in Hb as (-> & -> & ->).
      exists (ps ++ [(u, v)]). repeat split.
      * eapply normalPairs_snoc; eassumption.
      * rewrite map_app. reflexivity.
      * rewrite concat_replicate_S. reflexivity.
  - intros (ps & Hps & -> & ->). unfold _genNodesNormal, for_range.
    exact (normal_loop_returns center standardDeviation _ _ _ _ Hps 0%nat []).
Qed.

(** X4. Where the region test lets every point through, the bounded
    normal sampler is the unbounded one: the same result, the same final
    generator state and the same calls, whatever the budget of its loop. *)
Theorem normalBounded_all_inside_is_normal fuel numNodes (boundingRegion : polygon)
    (center : loc) standardDeviation (g : G) :
  (forall p, geoIsPointInPoly p boundingRegion = true) ->
  _genNodesNormalBounded fuel numNodes boundingRegion center standardDeviation g
  = _genNodesNormal numNodes center standardDeviation g.
Proof.
  intros Hin. unfold _genNodesNormalBounded, _genNodesNormal, for_range.
  apply for_each_ext. intros i locs g0.
  apply bind_ext_r. intros u g1. apply bind_ext_r. intros v g2.
  cbv zeta. unfold bind at 1.
  rewrite while_exit by (rewrite Hin; reflexivity).
  reflexivity.
Qed.

(** X5. Where the region test lets no point through, the bounded normal
    sampler asked for at least one node never returns; and when the
    generator keeps returning draws, it uses up every budget: the
    rejection loop of the first node does not end. *)
Theorem normalBounded_none_inside_never_returns numNodes (boundingRegion : polygon)
    (center : loc) standardDeviation :
  0 < numNodes ->
  (forall p, geoIsPointInPoly p boundingRegion = false) ->
  (forall fuel (g : G) locs g' t,
      _genNodesNormalBounded fuel numNodes boundingRegion center standardDeviation g
      <> (Ret locs, g', t))
  /\ ((forall g0 : G, exists x g1, np_random_uniform 0 360 g0 = (Ret x, g1)) ->
      (forall g0 : G, exists x g1, np_random_normal 0 standardDeviation g0 = (Ret x, g1)) ->
      forall fuel (g : G), exists g' t,
        _genNodesNormalBounded fuel numNodes boundingRegion center standardDeviation g
        = (Timeout, g', t)).
Proof.
  intros Hpos Hout. split.
  - intros fuel g locs g' t H.
    apply _genNodesNormalBounded_Ret in H as (Hlen & Hall).
    destruct locs as [| p locs]; [simpl in Hlen; lia |].
    apply Forall_cons in Hall as [[Hp _] _]. rewrite Hout in Hp. discriminate.
  - intros Hu Hn fuel g. unfold _genNodesNormalBounded, for_range.
    destruct (Z.to_nat numNodes) as [| n] eqn:Hn0; [lia |].
    cbn [seq for_each].
    destruct (Hu g) as (u & g1 & H1). destruct (Hn g1) as (v & g2 & H2).
    destruct (while_never_exits
                (fun newLoc => negb (geoIsPointInPoly newLoc boundingRegion))
                (fun _ : loc =>
                   rndUniform <- uniform 0 360 ;;
                   rndNormal <- normal 0 standardDeviation ;;
                   ret (geoPointInDistance2D center rndUniform rndNormal)))
      with (fuel := fuel) (s := geoPointInDistance2D center u v) (g := g2)
      as (g3 & t3 & H3).
    + intros p. rewrite Hout. reflexivity.
    + intros p g0. destruct (Hu g0) as (u' & ga & Ha). destruct (Hn ga) as (v' & gb & Hb).
      eexists _, _, _. unfold bind, uniform, normal, call, ret. rewrite Ha, Hb. reflexivity.
    + eexists _, _. apply bind_Timeout_intro.
      eapply bind_Ret_intro; [unfold uniform, call; rewrite H1; reflexivity |].
      eapply bind_Ret_intro; [unfold normal, call; rewrite H2; reflexivity |].
      cbv zeta. apply bind_Timeout_intro. exact H3.
Qed.

(** X6. A run of the bounded normal sampler that returns has made its
    draws in pairs, a bearing then a distance, at least [numNodes] of
    them, and no other call: every pair beyond [numNodes] is a rejected
    point. *)
Theorem normalBounded_draws_in_pairs fuel numNodes (boundingRegion : polygon)
    (center : loc) standardDeviation (g : G) locs g' t :
  _genNodesNormalBounded fuel numNodes boundingRegion center standardDeviation g
  = (Ret locs, g', t) ->
  exists rejected : nat,
    t = concat (replicate (Z.to_nat numNodes + rejected) (normalDraws standardDeviation))
    /\ count_events is_uniform t = (Z.to_nat numNodes + rejected)%nat
    /\ count_events is_normal t = (Z.to_nat numNodes + rejected)%nat.
Proof.
  unfold _genNodesNormalBounded. intros H.
  eapply (for_range_Ret _
    (fun i _ _ t1 =>
       exists k, t1 = concat (replicate (i + k) (normalDraws standardDeviation)))) in H.
  - destruct H as (k & ->). exists k. split; [reflexivity |].
    rewrite !count_events_concat_replicate. unfold count_events. simpl. lia.
  - exists 0%nat. reflexivity.
  - intros i s ga t1 s' gb t2 _ (k & ->) Hb.
    apply bind_Ret_inv in Hb as (u & gm & ? & ? & Hu & Hb & ->).
    apply call_inv in Hu as (_ & ->).
    apply bind_Ret_inv in Hb as (v & gn & ? & ? & Hv & Hb & ->).
    apply call_inv in Hv as (_ & ->).
    apply bind_Ret_inv in Hb as (p & g1 & tw & ? & Hloop & Hb & ->).
    apply ret_inv in Hb as (_ & _ & ->).
    eapply (while_Ret _ _
      (fun _ _ tq => exists j, tq = concat (replicate j (normalDraws standardDeviation))))
      in Hloop.
    + destruct Hloop as [(j & ->) _]. exists (k + j)%nat.
      replace (S i + (k + j))%nat with ((i + k) + 1 + j)%nat by lia.
      rewrite !concat_replicate_add. simpl. rewrite !app_nil_r, <- !app_assoc.
      reflexivity.
    + exists 0%nat. reflexivity.
    + intros q gq tq q' gq' tq' _ (j & ->) Hq.
      apply bind_Ret_inv in Hq as (u' & ? & ? & ? & Hu' & Hq & ->).
      apply call_inv in Hu' as (_ & ->).
      apply bind_Ret_inv in Hq as (v' & ? & ? & ? & Hv' & Hq & ->).
      apply call_inv in Hv' as (_ & ->).
      apply ret_inv in Hq as (_ & _ & ->).
      exists (S j). rewrite concat_replicate_S. reflexivity.
Qed.
End SamplerEdges.

(** ** The polygon sampler and the road sampler at their edges *)

Section PolygonEdges.
Context {G Nodes : Type} {C : Collaborators G Nodes}.
Local Abbreviation M := (M (G:=G)).

Lemma triangleAreas_weights (lstTriangle : list triangle) (g : G) lstArea g' t :
  triangleAreas lstTriangle g = (Ret lstArea, g', t) ->
  Forall2 (fun tri w => weightOf tri = Some w) lstTriangle lstArea.
Proof.
  unfold triangleAreas. intros H.
  eapply (for_range_Ret _
    (fun i s _ _ =>
       Forall2 (fun tri w => weightOf tri = Some w) (take i lstTriangle) s)) in H.
  - rewrite take_ge in H by lia. exact H.
  - constructor.
  - intros i s g1 t1 s' g2 t2 _ Hall Hb.
    apply bind_Ret_inv in Hb as (ta & ? & ? & ? & Hta & Hb & _).
    apply index_Ret_inv in Hta as (Hta & -> & _).
    apply bind_Ret_inv in Hb as (a & ? & ? & ? & Ha & Hb & _).
    apply index_Ret_inv in Ha as (Ha & -> & _).
    apply bind_Ret_inv in Hb as (tb & ? & ? & ? & Htb & Hb & _).
    apply index_Ret_inv in Htb as (Htb & -> & _).
    apply bind_Ret_inv in Hb as (b & ? & ? & ? & Hb' & Hb & _).
    apply index_Ret_inv in Hb' as (Hb' & -> & _).
    apply bind_Ret_inv in Hb as (tc & ? & ? & ? & Htc & Hb & _).
    apply index_Ret_inv in Htc as (Htc & -> & _).
    apply bind_Ret_inv in Hb as (c & ? & ? & ? & Hc & Hb & _).
    apply index_Ret_inv in Hc as (Hc & -> & _).
    apply ret_inv in Hb as (-> & _ & _).
    rewrite Hta in Htb, Htc. injection Htb as Etb. injection Htc as Etc. subst tb tc.
    rewrite (take_S_r _ _ _ Hta). apply Forall2_app; [exact Hall |].
    constructor; [| constructor]. unfold weightOf, triangle, polygon, loc in *.
    rewrite Ha, Hb', Hc. reflexivity.
Qed.

Lemma _genNodesUniformBounded_points numNodes (boundingRegion : polygon) (g : G) locs g' t :
  _genNodesUniformBounded numNodes boundingRegion g = (Ret locs, g', t) ->
  exists lstTriangle lstArea,
    tripy_earclip boundingRegion = Ret lstTriangle
    /\ Forall2 (fun tri w => weightOf tri = Some w) lstTriangle lstArea
    /\ t = batchTrace boundingRegion lstArea (Z.to_nat numNodes)
    /\ length locs = Z.to_nat numNodes
    /\ Forall (fun p => exists tri, tri ∈ lstTriangle /\ sampledIn tri p) locs.
Proof.
  intros H. pose proof H as H0. unfold _genNodesUniformBounded in H.
  apply bind_Ret_inv in H as (lstTriangle & g1 & ? & ? & Hclip & H & ->).
  apply earclip_inv in Hclip as (Hclip & -> & ->).
  apply bind_Ret_inv in H as (lstArea & g2 & ? & ? & Hareas & H & ->).
  pose proof (triangleAreas_weights _ _ _ _ _ Hareas) as Hw.
  destruct (triangleAreas_Ret _ _ _ _ _ Hareas) as [-> ->].
  apply _genNodesUniformBounded_Ret in H0 as (lstTriangle' & lstArea' & Hclip' & Hareas' & Hlen & Ht).
  rewrite Hclip in Hclip'. injection Hclip' as <-.
  rewrite Hareas in Hareas'. injection Hareas' as <-.
  exists lstTriangle, lstArea. repeat split; try assumption.
  eapply (for_range_Ret _
    (fun _ s _ _ => Forall (fun p => exists tri, tri ∈ lstTriangle /\ sampledIn tri p) s)) in H.
  - exact H.
  - constructor.
  - intros i s ga t1 s' gb t2 _ Hall Hb.
    apply bind_Ret_inv in Hb as (idx & ? & ? & ? & _ & Hb & _).
    apply bind_Ret_inv in Hb as (tri & ? & ? & ? & Htri & Hb & _).
    apply index_Z_Ret_inv in Htri as (Htri & _ & _).
    apply bind_Ret_inv in Hb as (newLoc & ? & ? & ? & Hnew & Hb & _).
    apply ret_inv in Hb as (-> & _ & _).
    apply _genNodesUniformTriangle_Ret in Hnew
      as (lat1 & lon1 & lat2 & lon2 & lat3 & lon3 & ps & H1 & H2 & H3 & _ & _ & -> & _).
    apply Forall_app. split; [exact Hall |].
    apply Forall_forall. intros p Hp.
    apply list_elem_of_fmap in Hp as (r & -> & _).
    exists tri. split; [exact Htri |].
    exists lat1, lon1, lat2, lon2, lat3, lon3, r. auto.
Qed.

(** X7. When the polygon sampler returns, the weights it hands to
    [randomPick] are, triangle by triangle and in order, the areas of the
    first three vertices of the triangles of [tripy.earclip]; and every
    returned point is a barycentric combination of the first three
    vertices of one of those triangles. *)
Theorem uniformBounded_points_from_triangles numNodes (boundingRegion : polygon)
    (g : G) locs g' t :
  _genNodesUniformBounded numNodes boundingRegion g = (Ret locs, g', t) ->
  exists lstTriangle lstArea,
    tripy_earclip boundingRegion = Ret lstTriangle
    /\ Forall2 (fun tri w => weightOf tri = Some w) lstTriangle lstArea
    /\ t = batchTrace boundingRegion lstArea (Z.to_nat numNodes)
    /\ forall p, p ∈ locs -> exists tri, tri ∈ lstTriangle /\ sampledIn tri p.
Proof.
  intros H. apply _genNodesUniformBounded_points in H
    as (lstTriangle & lstArea & Hclip & Hw & Ht & _ & Hall).
  exists lstTriangle, lstArea. repeat split; try assumption.
  apply Forall_forall. exact Hall.
Qed.

Lemma index_Z_nil {A} (i : Z) (g : G) : index_Z (@nil A) i g = (Raise IndexError, g, []).
Proof.
  unfold index_Z, index. simpl.
  destruct (0 <=? i); [reflexivity |]. destruct (- Z.of_nat 0 <=? i); reflexivity.
Qed.

(** X8. A bounding region in which [tripy.earclip] finds no triangle: the
    polygon sampler asked for at least one node never returns.  It calls
    [randomPick] on the empty list of areas, and if that answers with an
    index at all, indexing the empty list of triangles raises
    [IndexError]. *)
Theorem uniformBounded_no_triangle numNodes (boundingRegion : polygon) :
  tripy_earclip boundingRegion = Ret [] ->
  0 < numNodes ->
  (forall (g : G) locs g' t,
      _genNodesUniformBounded numNodes boundingRegion g <> (Ret locs, g', t))
  /\ (forall (g : G) idx g1,
        randomPick [] g = (Ret idx, g1) ->
        _genNodesUniformBounded numNodes boundingRegion g
        = (Raise IndexError, g1, [EvEarclip boundingRegion; EvRandomPick []])).
Proof.
  intros Hclip Hpos. split.
  - intros g locs g' t H.
    apply _genNodesUniformBounded_points in H
      as (lstTriangle & lstArea & Hclip' & _ & _ & Hlen & Hall).
    rewrite Hclip in Hclip'. injection Hclip' as <-.
    destruct locs as [| p locs]; [simpl in Hlen; lia |].
    apply Forall_cons in Hall as [(tri & Htri & _) _].
    apply elem_of_nil in Htri. exact Htri.
  - intros g idx g1 Hpick.
    unfold _genNodesUniformBounded.
    eapply (bind_Ret_intro _ _ g [] g [EvEarclip boundingRegion]);
      [unfold earclip, call; rewrite Hclip; reflexivity |].
    cbv beta. unfold triangleAreas at 1. unfold for_range. cbn [length seq for_each].
    rewrite bind_ret_l.
    destruct (Z.to_nat numNodes) as [| n] eqn:Hn; [lia |].
    cbn [seq for_each]. apply bind_Raise_intro.
    eapply (bind_Ret_intro _ _ g idx g1 [EvRandomPick []]);
      [unfold pick, call; rewrite Hpick; reflexivity |].
    apply bind_Raise_intro. apply index_Z_nil.
Qed.

(** X9. The triangle sampler reads its three vertices before anything
    else, whatever [numNodes]: with fewer than three vertices, all of them
    pairs, it raises [IndexError]; with three vertices of which one is not
    a pair (a coordinate with an altitude, say), it raises [ValueError].
    In both cases it has made no draw. *)
Theorem uniformTriangle_needs_three_pairs numNodes (tri : triangle) (g : G) :
  ((length tri < 3)%nat -> Forall (fun v => length v = 2%nat) tri ->
   _genNodesUniformTriangle numNodes tri g = (Raise IndexError, g, []))
  /\ (forall v1 v2 v3,
        tri !! 0%nat = Some v1 -> tri !! 1%nat = Some v2 -> tri !! 2%nat = Some v3 ->
        length v1 <> 2%nat \/ length v2 <> 2%nat \/ length v3 <> 2%nat ->
        _genNodesUniformTriangle numNodes tri g = (Raise ValueError, g, [])).
Proof.
  split.
  - intros Hlen Hall. unfold _genNodesUniformTriangle, bind, index, unpack2, ret, raise.
    destruct tri as [| v1 [| v2 [| v3 [| v4 tri]]]]; simpl in Hlen; try lia; simpl.
    + reflexivity.
    + apply Forall_cons in Hall as [H1 _].
      destruct v1 as [| a [| b [| c v1]]]; simpl in H1; try lia. reflexivity.
    + apply Forall_cons in Hall as [H1 Hall]. apply Forall_cons in Hall as [H2 _].
      destruct v1 as [| a [| b [| c v1]]]; simpl in H1; try lia.
      destruct v2 as [| a2 [| b2 [| c2 v2]]]; simpl in H2; try lia. reflexivity.
  - intros v1 v2 v3 H1 H2 H3 Hbad.
    unfold _genNodesUniformTriangle, bind, index, unpack2, ret, raise.
    unfold triangle, polygon, loc in *. rewrite H1, H2, H3.
    destruct v1 as [| a1 [| b1 [| c1 v1]]]; try reflexivity;
      destruct v2 as [| a2 [| b2 [| c2 v2]]]; try reflexivity;
      destruct v3 as [| a3 [| b3 [| c3 v3]]]; try reflexivity.
    simpl in Hbad. lia.
Qed.

(** *** The distance filter, forward *)

Lemma keepCloseToRoad_prefix d (newLocs snapLocs locs : list loc) (g : G) m :
  (m <= length newLocs)%nat -> (m <= length snapLocs)%nat ->
  for_each (seq 0 m) (fun (i : nat) (locs : list loc) =>
    c <- index newLocs i ;;
    s <- index snapLocs i ;;
    if (geoDistance2D c s <=? d)%float then ret (locs ++ [c]) else ret locs) locs g
  = (Ret (locs ++ accepted d (take m newLocs) (take m snapLocs)), g, []).
Proof.
  induction m as [| m IH]; intros Hn Hs.
  - simpl. rewrite app_nil_r. reflexivity.
  - destruct (lookup_lt_is_Some_2 newLocs m ltac:(lia)) as [c Hc].
    destruct (lookup_lt_is_Some_2 snapLocs m ltac:(lia)) as [s Hsn].
    rewrite seq_S, for_each_app. simpl (0 + m)%nat.
    set (s0 := locs ++ accepted d (take m newLocs) (take m snapLocs)).
    assert (Hlast :
      for_each [m] (fun (i : nat) (locs : list loc) =>
        c <- index newLocs i ;;
        s <- index snapLocs i ;;
        if (geoDistance2D c s <=? d)%float then ret (locs ++ [c]) else ret locs) s0 g
      = (Ret (s0 ++ (if (geoDistance2D c s <=? d)%float then [c] else [])), g, [])).
    { cbn [for_each]. unfold bind, index, ret. rewrite Hc, Hsn.
      destruct (geoDistance2D c s <=? d)%float; rewrite ?app_nil_r; reflexivity. }
    etransitivity; [eapply bind_Ret_intro; [apply IH; lia | exact Hlast] |].
    rewrite (take_S_r _ _ _ Hc), (take_S_r _ _ _ Hsn).
    rewrite accepted_snoc by (rewrite !length_take; lia).
    unfold s0. rewrite app_assoc. reflexivity.
Qed.

Lemma keepCloseToRoad_returns d (newLocs snapLocs locs : list loc) (g : G) :
  (length snapLocs <= length newLocs)%nat ->
  keepCloseToRoad d newLocs snapLocs locs g
  = (Ret (locs ++ accepted d newLocs snapLocs), g, []).
Proof.
  intros Hlen. unfold keepCloseToRoad, for_range.
  rewrite keepCloseToRoad_prefix by lia.
  rewrite (take_ge snapLocs) by lia. rewrite accepted_take. reflexivity.
Qed.

Lemma keepCloseToRoad_long d (newLocs snapLocs locs : list loc) (g : G) :
  (length newLocs < length snapLocs)%nat ->
  keepCloseToRoad d newLocs snapLocs locs g = (Raise IndexError, g, []).
Proof.
  intros Hlen. unfold keepCloseToRoad, for_range.
  replace (length snapLocs)
    with (length newLocs + S (length snapLocs - S (length newLocs)))%nat by lia.
  rewrite seq_app, for_each_app. simpl (0 + _)%nat.
  etransitivity; [eapply bind_Ret_intro; [apply keepCloseToRoad_prefix; lia |] |].
  - cbn [seq for_each]. apply bind_Raise_intro. apply bind_Raise_intro.
    unfold index. rewrite (lookup_ge_None_2 newLocs) by lia. reflexivity.
  - reflexivity.
Qed.

Lemma accepted_all d (newLocs snapLocs : list loc) :
  Forall2 (fun c s => (geoDistance2D c s <=? d)%float = true) newLocs snapLocs ->
  accepted d newLocs snapLocs = newLocs.
Proof.
  induction 1 as [| c s cs ss Hd _ IH]; simpl; [reflexivity |].
  rewrite Hd, IH. reflexivity.
Qed.

Lemma accepted_none d (newLocs snapLocs : list loc) :
  (forall c s, (geoDistance2D c s <=? d)%float = false) ->
  accepted d newLocs snapLocs = [].
Proof.
  intros Hd. revert snapLocs.
  induction newLocs as [| c cs IH]; intros [| s ss]; simpl; try reflexivity.
  rewrite Hd, IH. reflexivity.
Qed.

(** The first round of the road sampler, up to the filter. *)
Lemma roadBased_first_round fuel numNodes (boundingRegion : polygon) d
    dataProvider APIkey databaseName (g : G) newLocs g1 t1 snapLocs g2 :
  0 < numNodes ->
  _genNodesUniformBounded numNodes boundingRegion g = (Ret newLocs, g1, t1) ->
  privGetSnapLocBatch [PyLocs newLocs; dataProvider; APIkey; databaseName] g1
  = (Ret snapLocs, g2) ->
  _genNodesRoadBased (S fuel) numNodes boundingRegion d dataProvider APIkey databaseName g
  = bind (fun g0 =>
            match keepCloseToRoad d newLocs snapLocs [] g2 with
            | (r, g3, t3) =>
                (r, g3,
                 t1 ++ [EvSnap [PyLocs newLocs; dataProvider; APIkey; databaseName]
                          (Ret snapLocs)] ++ t3)
            end)
         (while fuel
            (fun locs => Z.of_nat (length locs) <? numNodes)
            (fun locs =>
               newLocs <- _genNodesUniformBounded (numNodes - Z.of_nat (length locs))
                            boundingRegion ;;
               snapLocs <- snap [PyLocs newLocs; dataProvider; APIkey; databaseName] ;;
               keepCloseToRoad d newLocs snapLocs locs)) g.
Proof.
  intros Hpos Hbatch Hsnap. unfold _genNodesRoadBased.
  rewrite while_step by (apply Z.ltb_lt; simpl; lia).
  apply bind_cong_l. cbn [length]. change (Z.of_nat 0) with 0. rewrite Z.sub_0_r.
  unfold bind at 1. rewrite Hbatch.
  unfold bind, snap, call. rewrite Hsnap.
  destruct (keepCloseToRoad d newLocs snapLocs [] g2) as [[r g3] t3]. reflexivity.
Qed.

(** X10. An adapter that answers with more coordinates than it was given:
    the road sampler raises [IndexError] in its first round, where it
    indexes the candidates past their end. *)
Theorem roadBased_long_answer_IndexError fuel numNodes (boundingRegion : polygon) distToRoad
    dataProvider APIkey databaseName (g : G) newLocs g1 t1 snapLocs g2 :
  0 < numNodes ->
  _genNodesUniformBounded numNodes boundingRegion g = (Ret newLocs, g1, t1) ->
  privGetSnapLocBatch [PyLocs newLocs; dataProvider; APIkey; databaseName] g1
  = (Ret snapLocs, g2) ->
  (length newLocs < length snapLocs)%nat ->
  _genNodesRoadBased (S fuel) numNodes boundingRegion distToRoad
    dataProvider APIkey databaseName g
  = (Raise IndexError, g2,
     t1 ++ [EvSnap [PyLocs newLocs; dataProvider; APIkey; databaseName] (Ret snapLocs)]).
Proof.
  intros Hpos Hbatch Hsnap Hlen.
  rewrite (roadBased_first_round _ _ _ _ _ _ _ _ _ _ _ _ _ Hpos Hbatch Hsnap).
  rewrite keepCloseToRoad_long by exact Hlen.
  apply bind_Raise_intro. rewrite app_nil_r. reflexivity.
Qed.

(** X11. When the adapter answers with one coordinate per candidate and
    every candidate is within [distToRoad] of its answer, the road sampler
    is done after one round: it returns the batch of the polygon sampler
    unchanged, after a single call of the adapter. *)
Theorem roadBased_one_round_when_all_close fuel numNodes (boundingRegion : polygon) distToRoad
    dataProvider APIkey databaseName (g : G) newLocs g1 t1 snapLocs g2 :
  0 < numNodes ->
  _genNodesUniformBounded numNodes boundingRegion g = (Ret newLocs, g1, t1) ->
  privGetSnapLocBatch [PyLocs newLocs; dataProvider; APIkey; databaseName] g1
  = (Ret snapLocs, g2) ->
  Forall2 (fun c s => (geoDistance2D c s <=? distToRoad)%float = true) newLocs snapLocs ->
  _genNodesRoadBased (S fuel) numNodes boundingRegion distToRoad
    dataProvider APIkey databaseName g
  = (Ret newLocs, g2,
     t1 ++ [EvSnap [PyLocs newLocs; dataProvider; APIkey; databaseName] (Ret snapLocs)]).
Proof.
  intros Hpos Hbatch Hsnap Hclose.
  rewrite (roadBased_first_round _ _ _ _ _ _ _ _ _ _ _ _ _ Hpos Hbatch Hsnap).
  pose proof (Forall2_length _ _ _ Hclose) as Hlen.
  rewrite keepCloseToRoad_returns by lia.
  rewrite (accepted_all _ _ _ Hclose). simpl.
  apply _genNodesUniformBounded_Ret in Hbatch as (_ & _ & _ & _ & Hn & _).
  unfold bind. rewrite while_exit by (apply Z.ltb_ge; lia).
  rewrite !app_nil_r. reflexivity.
Qed.

(** X12. When no candidate is ever within [distToRoad] of the adapter's
    answer, the road sampler asked for at least one node never returns:
    nothing is accepted, and the loop has no other exit. *)
Theorem roadBased_none_close_never_returns fuel numNodes (boundingRegion : polygon) distToRoad
    dataProvider APIkey databaseName (g : G) locs g' t :
  0 < numNodes ->
  (forall c s, (geoDistance2D c s <=? distToRoad)%float = false) ->
  _genNodesRoadBased fuel numNodes boundingRegion distToRoad dataProvider APIkey databaseName g
  <> (Ret locs, g', t).
Proof.
  intros Hpos Hfar H.
  apply _genNodesRoadBased_rounds in H as (rs & _ & -> & _ & Hexit).
  assert (Hnil : concat (map (roundAccepted distToRoad) rs) = []).
  { clear Hexit. induction rs as [| r rs IH]; simpl; [reflexivity |].
    unfold roundAccepted at 1. rewrite accepted_none by exact Hfar. exact IH. }
  apply Hexit. rewrite Hnil. simpl. lia.
Qed.
End PolygonEdges.

(** ** The orchestrator at its edges *)

Section OrchestratorEdges.
Context {G Nodes : Type} {C : Collaborators G Nodes}.
Local Abbreviation M := (M (G:=G)).

Lemma uniformBounded_calls numNodes (boundingRegion : polygon) :
  emits (fun ev => is_earclip ev || is_pick ev || is_uniform ev = true)
    (_genNodesUniformBounded numNodes boundingRegion).
Proof.
  unfold _genNodesUniformBounded, earclip, pick.
  apply emits_bind; [apply emits_call; intros r; reflexivity | intros lstTriangle].
  apply emits_bind; [| intros lstArea].
  - eapply emits_weaken; [| apply triangleAreas_emits]. intros ev [].
  - apply emits_for_range. intros i s.
    apply emits_bind; [apply emits_call; intros r; reflexivity | intros idx].
    apply emits_bind; [auto with emits | intros tri].
    apply emits_bind; [| intros newLoc; auto with emits].
    eapply emits_weaken; [| apply _genNodesUniformTriangle_emits].
    intros ev ->. reflexivity.
Qed.

Lemma normal_calls numNodes (center : loc) sd :
  emits (fun ev => is_uniform ev || is_normal ev = true) (_genNodesNormal numNodes center sd).
Proof. unfold _genNodesNormal, uniform, normal. repeat emits_step. Qed.

Lemma normalBounded_calls fuel numNodes (boundingRegion : polygon) (center : loc) sd :
  emits (fun ev => is_uniform ev || is_normal ev = true)
    (_genNodesNormalBounded fuel numNodes boundingRegion center sd).
Proof. unfold _genNodesNormalBounded, uniform, normal. repeat emits_step. Qed.

Lemma roadBased_calls fuel numNodes (boundingRegion : polygon) d
    dataProvider APIkey databaseName :
  emits (fun ev => is_earclip ev || is_pick ev || is_uniform ev || is_snap ev = true)
    (_genNodesRoadBased fuel numNodes boundingRegion d dataProvider APIkey databaseName).
Proof.
  unfold _genNodesRoadBased. apply emits_while. intros locs.
  apply emits_bind; [| intros newLocs].
  - eapply emits_weaken; [| apply uniformBounded_calls].
    intros ev Hev. rewrite Hev. reflexivity.
  - apply emits_bind; [| intros snapLocs].
    + unfold snap. apply emits_call. intros r. reflexivity.
    + eapply emits_weaken; [| apply keepCloseToRoad_emits]. intros ev [].
Qed.

Lemma generateNodes_locs_calls fuel o numNodes nodeDistrib nodeDistribArgs :
  emits (fun ev => samplerCalls nodeDistrib ev = true)
    (generateNodes_locs fuel o numNodes nodeDistrib nodeDistribArgs).
Proof.
  unfold samplerCalls, generateNodes_locs.
  destruct (tag_is nodeDistrib "uniformBB");
    [| destruct (tag_is nodeDistrib "normal");
       [destruct (contains nodeDistribArgs "boundingRegion")
       | destruct (tag_is nodeDistrib "normalBB");
         [| destruct (tag_is nodeDistrib "unifRoadBasedBB")]]];
    simpl;
    repeat first
      [ solve [auto with emits]
      | solve [eapply emits_weaken;
               [| first [ apply uniformBounded_calls | apply normal_calls
                        | apply normalBounded_calls | apply roadBased_calls ]];
               intros ev Hev; simpl; exact Hev]
      | apply emits_bind; [| intros ?] ].
Qed.

Lemma samplerCalls_not_bookkeeping nodeDistrib ev :
  samplerCalls nodeDistrib ev = true ->
  is_validate ev = false /\ is_print ev = false /\ is_create ev = false.
Proof.
  unfold samplerCalls.
  destruct (tag_is nodeDistrib "uniformBB"), (tag_is nodeDistrib "normal"),
    (tag_is nodeDistrib "normalBB"), (tag_is nodeDistrib "unifRoadBasedBB");
    destruct ev; simpl; intros H; try discriminate; auto.
Qed.

Lemma generateNodes_calls fuel o numNodes nodeDistrib nodeDistribArgs :
  emits (fun ev => is_validate ev || is_print ev || is_create ev || samplerCalls nodeDistrib ev
                   = true)
    (generateNodes fuel o numNodes nodeDistrib nodeDistribArgs).
Proof.
  unfold generateNodes, print.
  apply emits_bind; [apply emits_call; intros r; reflexivity | intros [[valFlag errorMsg] warningMsg]].
  destruct valFlag; simpl.
  - apply emits_bind; [| intros _].
    + destruct (VRV_SETTING_SHOWWARNINGMESSAGE && negb (String.eqb warningMsg EmptyString));
        [apply emits_call; intros r; reflexivity | auto with emits].
    + apply emits_bind; [| intros [locs |]].
      * eapply emits_weaken; [| apply generateNodes_locs_calls].
        intros ev Hev. rewrite Hev. rewrite !orb_true_r. reflexivity.
      * apply emits_bind; [apply emits_call; intros r; reflexivity | intros nodes].
        auto with emits.
      * auto with emits.
  - apply emits_bind; [apply emits_call; intros r; reflexivity | intros _; auto with emits].
Qed.

Lemma generateNodes_locs_length fuel o numNodes nodeDistrib nodeDistribArgs (g : G) locs g' t :
  generateNodes_locs fuel o numNodes nodeDistrib nodeDistribArgs g = (Ret (Some locs), g', t) ->
  length locs = Z.to_nat numNodes /\ is_dispatched nodeDistrib = true.
Proof.
  intros H.
  assert (Htag : is_dispatched nodeDistrib = true).
  { destruct (is_dispatched nodeDistrib) eqn:Htag; [reflexivity |].
    rewrite (generateNodes_locs_unknown _ _ _ _ _ Htag) in H. discriminate. }
  split; [| exact Htag]. clear Htag. unfold generateNodes_locs in H.
  destruct (tag_is nodeDistrib "uniformBB");
    [| destruct (tag_is nodeDistrib "normal");
       [destruct (contains nodeDistribArgs "boundingRegion")
       | destruct (tag_is nodeDistrib "normalBB");
         [| destruct (tag_is nodeDistrib "unifRoadBasedBB"); [| discriminate H]]]];
    simpl in H; invert_run;
    repeat match goal with
      | E : Some _ = Some _ |- _ => injection E as E; subst
      end;
    match goal with
    | S : _genNodesUniformBounded _ _ _ = _ |- _ =>
        apply _genNodesUniformBounded_Ret in S as (_ & _ & _ & _ & S & _); exact S
    | S : _genNodesNormal _ _ _ _ = _ |- _ =>
        apply _genNodesNormal_Ret in S as (S & _); exact S
    | S : _genNodesNormalBounded _ _ _ _ _ _ = _ |- _ =>
        apply _genNodesNormalBounded_Ret in S as (S & _); exact S
    | S : _genNodesRoadBased _ _ _ _ _ _ _ _ = _ |- _ =>
        apply _genNodesRoadBased_length in S; exact S
    end.
Qed.

Lemma generateNodes_locs_missing fuel o numNodes nodeDistrib nodeDistribArgs (g : G) k :
  firstMissing nodeDistribArgs (keysRead nodeDistrib nodeDistribArgs) = Some k ->
  generateNodes_locs fuel o numNodes nodeDistrib nodeDistribArgs g = (Raise (KeyError k), g, []).
Proof.
  unfold firstMissing, keysRead, generateNodes_locs, getitem.
  destruct nodeDistribArgs as [[region |] [center |] [sd |] [d |]];
    destruct (tag_is nodeDistrib "uniformBB"), (tag_is nodeDistrib "normal"),
      (tag_is nodeDistrib "normalBB"), (tag_is nodeDistrib "unifRoadBasedBB");
    simpl; intros H; try discriminate H; injection H as <-; reflexivity.
Qed.

(** X13. A key that the branch of the tag reads and the parameter bag
    lacks: after a successful validation, [generateNodes] raises
    [KeyError] for the first such key in the order in which the branch
    reads them, before any sampling call and without building nodes. *)
Theorem generateNodes_missing_key fuel o numNodes nodeDistrib nodeDistribArgs
    (g : G) errorMsg warningMsg g1 k :
  valGenerateNodes o numNodes nodeDistrib nodeDistribArgs g
  = (Ret (true, errorMsg, warningMsg), g1) ->
  firstMissing nodeDistribArgs (keysRead nodeDistrib nodeDistribArgs) = Some k ->
  exists t,
    generateNodes fuel o numNodes nodeDistrib nodeDistribArgs g = (Raise (KeyError k), g1, t)
    /\ count_events is_sampling t = 0%nat
    /\ count_events is_create t = 0%nat.
Proof.
  intros Hval Hk. unfold generateNodes.
  destruct (VRV_SETTING_SHOWWARNINGMESSAGE && negb (String.eqb warningMsg EmptyString))
    eqn:Hwarn; eexists; (split; [| split]).
  - eapply bind_Ret_intro; [unfold call; rewrite Hval; reflexivity |].
    cbv beta iota. simpl negb. cbv iota. rewrite Hwarn.
    eapply bind_Ret_intro; [unfold print, call; reflexivity |].
    apply bind_Raise_intro. apply generateNodes_locs_missing. exact Hk.
  - reflexivity.
  - reflexivity.
  - eapply bind_Ret_intro; [unfold call; rewrite Hval; reflexivity |].
    cbv beta iota. simpl negb. cbv iota. rewrite Hwarn.
    eapply bind_Ret_intro; [reflexivity |].
    apply bind_Raise_intro. apply generateNodes_locs_missing. exact Hk.
  - reflexivity.
  - reflexivity.
Qed.

(** X14. What [generateNodes] returns.  It returns [None] only when
    validation fails, right after printing the message.  When it returns
    nodes, validation has passed, the tag is one of the four, and the
    nodes are what [privCreateNodesFromLocs] made, in its one call at the
    end, of the [numNodes] coordinates of the sampler; the inputs are
    validated once. *)
Theorem generateNodes_result fuel o numNodes nodeDistrib nodeDistribArgs (g : G) result g' t :
  generateNodes fuel o numNodes nodeDistrib nodeDistribArgs g = (Ret result, g', t) ->
  match result with
  | None =>
      exists errorMsg warningMsg,
        valGenerateNodes o numNodes nodeDistrib nodeDistribArgs g
        = (Ret (false, errorMsg, warningMsg), g')
        /\ t = [EvValidate; EvPrint errorMsg]
  | Some nodes =>
      exists errorMsg warningMsg gv locs g1 t0,
        valGenerateNodes o numNodes nodeDistrib nodeDistribArgs g
        = (Ret (true, errorMsg, warningMsg), gv)
        /\ is_dispatched nodeDistrib = true
        /\ length locs = Z.to_nat numNodes
        /\ privCreateNodesFromLocs locs o g1 = (Ret nodes, g')
        /\ t = EvValidate :: t0 ++ [EvCreateNodes locs]
        /\ count_events is_create t = 1%nat
        /\ count_events is_validate t = 1%nat
  end.
Proof.
  unfold generateNodes. intros H.
  apply bind_Ret_inv in H as ([[valFlag errorMsg] warningMsg] & gv & ? & ? & Hval & H & ->).
  apply call_inv in Hval as (Hval & ->).
  destruct valFlag; simpl in H.
  - apply bind_Ret_inv in H as ([] & gw & tw & ? & Hwarn & H & ->).
    apply bind_Ret_inv in H as (locs & g1 & tl & ? & Hlocs & H & ->).
    destruct locs as [locs |]; [| discriminate H].
    apply bind_Ret_inv in H as (nodes & g2 & ? & ? & Hcreate & H & ->).
    apply call_inv in Hcreate as (Hcreate & ->).
    apply ret_inv in H as (-> & -> & ->).
    destruct (generateNodes_locs_length _ _ _ _ _ _ _ _ _ Hlocs) as [Hlen Htag].
    assert (Hquiet : Forall (fun ev => is_create ev = false /\ is_validate ev = false) (tw ++ tl)).
    { apply Forall_app. split.
      - destruct (VRV_SETTING_SHOWWARNINGMESSAGE && negb (String.eqb warningMsg EmptyString)).
        + unfold print in Hwarn. apply call_inv in Hwarn as (_ & ->).
          repeat constructor.
        + apply ret_inv in Hwarn as (_ & _ & ->). constructor.
      - eapply Forall_impl; [eapply generateNodes_locs_calls; exact Hlocs |].
        intros ev Hev. apply samplerCalls_not_bookkeeping in Hev as (? & _ & ?). auto. }
    assert (Ht : [EvValidate] ++ tw ++ tl ++ [EvCreateNodes locs] ++ []
                 = [EvValidate] ++ (tw ++ tl) ++ [EvCreateNodes locs])
      by (rewrite app_nil_r, <- app_assoc; reflexivity).
    rewrite Ht.
    exists errorMsg, warningMsg, gv, locs, g1, (tw ++ tl).
    repeat split; try assumption.
    + rewrite (count_events_app _ [EvValidate]), (count_events_app _ (tw ++ tl)).
      rewrite (count_events_none is_create (tw ++ tl))
        by (eapply Forall_impl; [exact Hquiet | intros ev [? _]; assumption]).
      reflexivity.
    + rewrite (count_events_app _ [EvValidate]), (count_events_app _ (tw ++ tl)).
      rewrite (count_events_none is_validate (tw ++ tl))
        by (eapply Forall_impl; [exact Hquiet | intros ev [_ ?]; assumption]).
      reflexivity.
  - apply bind_Ret_inv in H as ([] & gp & ? & ? & Hprint & H & ->).
    unfold print in Hprint. apply call_inv in Hprint as (Hprint & ->).
    injection Hprint as <-.
    apply ret_inv in H as (-> & -> & ->).
    exists errorMsg, warningMsg. split; [exact Hval | reflexivity].
Qed.

(** X15. Which collaborators a tag reaches, however the call ends.  Only
    ['unifRoadBasedBB'] calls the road-snap adapter while sampling; only
    ['uniformBB'] and ['unifRoadBasedBB'] triangulate and call
    [randomPick]; only ['normal'] and ['normalBB'] draw from the normal
    distribution. *)
Theorem generateNodes_calls_by_tag fuel o numNodes nodeDistrib nodeDistribArgs (g : G) r g' t :
  generateNodes fuel o numNodes nodeDistrib nodeDistribArgs g = (r, g', t) ->
  (tag_is nodeDistrib "unifRoadBasedBB" = false -> count_events is_snap t = 0%nat)
  /\ (tag_is nodeDistrib "uniformBB" = false -> tag_is nodeDistrib "unifRoadBasedBB" = false ->
      count_events is_earclip t = 0%nat /\ count_events is_pick t = 0%nat)
  /\ (tag_is nodeDistrib "normal" = false -> tag_is nodeDistrib "normalBB" = false ->
      count_events is_normal t = 0%nat).
Proof.
  intros H. pose proof (generateNodes_calls _ _ _ _ _ _ _ _ _ H) as Hall.
  unfold samplerCalls in Hall.
  split; [| split].
  - intros Hroad. apply count_events_none. eapply Forall_impl; [exact Hall |].
    intros ev. rewrite Hroad.
    destruct (tag_is nodeDistrib "uniformBB"), (tag_is nodeDistrib "normal"),
      (tag_is nodeDistrib "normalBB"); destruct ev; simpl; intros Hev;
      first [reflexivity | discriminate Hev].
  - intros Hunif Hroad.
    split; apply count_events_none; (eapply Forall_impl; [exact Hall |]);
      intros ev; rewrite Hunif, Hroad;
      destruct (tag_is nodeDistrib "normal"), (tag_is nodeDistrib "normalBB");
      destruct ev; simpl; intros Hev; first [reflexivity | discriminate Hev].
  - intros Hn Hnb. apply count_events_none. eapply Forall_impl; [exact Hall |].
    intros ev. rewrite Hn, Hnb.
    destruct (tag_is nodeDistrib "uniformBB"), (tag_is nodeDistrib "unifRoadBasedBB");
      destruct ev; simpl; intros Hev; first [reflexivity | discriminate Hev].
Qed.

(** X16. [createNodesFromLocs] builds nodes only after a successful
    validation and only from the coordinates it was given: it returns
    [None] only when validation fails, having printed the message and
    built nothing; it returns nodes only when validation passes and
    [privCreateNodesFromLocs] returns them for [locs], in its last call;
    and however it ends, every node construction in its calls is for
    [locs], at most once. *)
Theorem createNodesFromLocs_result (locs : list loc) o (g : G) r g' t :
  createNodesFromLocs locs o g = (r, g', t) ->
  (count_events is_create t <= 1)%nat
  /\ (forall locs', EvCreateNodes locs' ∈ t -> locs' = locs)
  /\ (r = Ret None ->
      exists errorMsg warningMsg,
        valCreateNodesFromLocs locs o g = (Ret (false, errorMsg, warningMsg), g')
        /\ t = [EvValidate; EvPrint errorMsg])
  /\ (forall nodes, r = Ret (Some nodes) ->
      exists errorMsg warningMsg gv,
        valCreateNodesFromLocs locs o g = (Ret (true, errorMsg, warningMsg), gv)
        /\ privCreateNodesFromLocs locs o gv = (Ret nodes, g')
        /\ last t = Some (EvCreateNodes locs)).
Proof.
  intros H. unfold createNodesFromLocs, bind, call, print, ret in H.
  destruct (valCreateNodesFromLocs locs o g)
    as [[[[valFlag errorMsg] warningMsg] | e |] gv] eqn:Hval;
    [destruct valFlag; simpl in H;
     [destruct (VRV_SETTING_SHOWWARNINGMESSAGE && negb (String.eqb warningMsg EmptyString));
      simpl in H;
      destruct (privCreateNodesFromLocs locs o gv) as [[nodes | e |] gc] eqn:Hc;
      simpl in H |] | |];
    injection H as <- <- <-;
    (split; [unfold count_events; simpl; lia |]);
    (split;
     [intros locs' Hin; apply list_elem_of_In in Hin; simpl in Hin;
      repeat (destruct Hin as [Hin | Hin];
              [first [discriminate Hin | injection Hin as ->; reflexivity] |]);
      contradiction |]);
    (split;
     [intros Hr; first [discriminate Hr | exists errorMsg, warningMsg; auto]
     | intros nodes' Hr;
       first [discriminate Hr
             | injection Hr as <-; exists errorMsg, warningMsg, gv; auto]]).
Qed.
End OrchestratorEdges.

(** ** Counts below one, messages and the adapter's arguments *)

(** The adapter calls whose arguments are the candidates, then the given
    provider, key and database, in that order. *)
Definition snapCalledWith (dataProvider APIkey databaseName : pyval) (ev : event) : Prop :=
  match ev with
  | EvSnap args _ => exists newLocs, args = [PyLocs newLocs; dataProvider; APIkey; databaseName]
  | _ => True
  end.

(** What [generateNodes] prints right after the validation. *)
Definition printedAfterValidation (showWarnings valFlag : bool) (errorMsg warningMsg : string)
    : list event :=
  if negb valFlag then [EvPrint errorMsg]
  else if showWarnings && negb (String.eqb warningMsg EmptyString) then [EvPrint warningMsg]
  else [].

Section FurtherEdges.
Context {G Nodes : Type} {C : Collaborators G Nodes}.
Local Abbreviation M := (M (G:=G)).

Lemma uniformBounded_nonpositive numNodes (boundingRegion : polygon) (g : G) r g' t :
  numNodes <= 0 ->
  _genNodesUniformBounded numNodes boundingRegion g = (r, g', t) ->
  t = [EvEarclip boundingRegion] /\ (forall locs, r = Ret locs -> locs = []).
Proof.
  intros Hn H. unfold _genNodesUniformBounded in H.
  assert (H0 : Z.to_nat numNodes = 0%nat) by lia. rewrite H0 in H.
  apply bind_inv in H as [(lstTriangle & g1 & t1 & t2 & Hclip & H & ->)
                         | [(e & Hclip & ->) | (Hclip & ->)]];
    apply earclip_inv in Hclip as (Hclip & Hg & ->);
    [| split; [reflexivity | discriminate] ..].
  apply bind_inv in H as [(lstArea & g2 & t3 & t4 & Hareas & H & ->)
                         | [(e & Hareas & ->) | (Hareas & ->)]];
    pose proof (no_event_nil _ (triangleAreas_emits _ _ _ _ _ Hareas)) as Ht; subst;
    [| split; [reflexivity | discriminate] ..].
  unfold for_range, ret in H. simpl in H. injection H as <- _ <-.
  split; [reflexivity |]. intros locs [= <-]. reflexivity.
Qed.

(** X17. A count below one.  The two normal samplers and the road sampler
    return the empty list at once, without a single call: the road
    sampler neither triangulates nor reaches the adapter.  The polygon
    sampler still triangulates the region, and does nothing else. *)
Theorem samplers_nonpositive_count fuel numNodes (boundingRegion : polygon) (center : loc)
    standardDeviation distToRoad dataProvider APIkey databaseName (g : G) :
  numNodes <= 0 ->
  _genNodesNormal numNodes center standardDeviation g = (Ret [], g, [])
  /\ _genNodesNormalBounded fuel numNodes boundingRegion center standardDeviation g
     = (Ret [], g, [])
  /\ _genNodesRoadBased fuel numNodes boundingRegion distToRoad dataProvider APIkey databaseName g
     = (Ret [], g, [])
  /\ (forall r g' t,
        _genNodesUniformBounded numNodes boundingRegion g = (r, g', t) ->
        t = [EvEarclip boundingRegion] /\ (forall locs, r = Ret locs -> locs = [])).
Proof.
  intros Hn. assert (H0 : Z.to_nat numNodes = 0%nat) by lia.
  split; [| split; [| split]].
  - unfold _genNodesNormal. rewrite H0. reflexivity.
  - unfold _genNodesNormalBounded. rewrite H0. reflexivity.
  - unfold _genNodesRoadBased.
    assert (Hcond : (Z.of_nat 0 <? numNodes) = false) by (apply Z.ltb_ge; lia).
    destruct fuel; cbn [while length]; rewrite Hcond; reflexivity.
  - intros r g' t. apply uniformBounded_nonpositive. exact Hn.
Qed.

Lemma roadBased_snapCalledWith fuel numNodes (boundingRegion : polygon) d
    dataProvider APIkey databaseName :
  emits (snapCalledWith dataProvider APIkey databaseName)
    (_genNodesRoadBased fuel numNodes boundingRegion d dataProvider APIkey databaseName).
Proof.
  unfold _genNodesRoadBased. apply emits_while. intros locs.
  apply emits_bind; [| intros newLocs].
  - eapply emits_weaken; [| apply uniformBounded_calls].
    intros [] Hev; simpl; first [exact I | discriminate Hev].
  - apply emits_bind; [| intros snapLocs].
    + unfold snap. apply emits_call. intros r. simpl. exists newLocs. reflexivity.
    + eapply emits_weaken; [| apply keepCloseToRoad_emits]. intros ev [].
Qed.

(** X18. Every call of the road-snap adapter that [generateNodes] makes,
    however the call ends, has four arguments: a list of candidates, then
    [dataProvider], then [dataProviderArgs] (where the road sampler has
    its parameter [APIkey]), then [None] (its [databaseName], never
    given). *)
Theorem generateNodes_adapter_arguments fuel o numNodes nodeDistrib nodeDistribArgs
    (g : G) r g' t :
  generateNodes fuel o numNodes nodeDistrib nodeDistribArgs g = (r, g', t) ->
  forall args res,
    EvSnap args res ∈ t ->
    exists newLocs, args = [PyLocs newLocs; dataProvider o; dataProviderArgs o; PyNone].
Proof.
  intros H.
  assert (Hall : Forall (snapCalledWith (dataProvider o) (dataProviderArgs o) PyNone) t).
  { revert g r g' t H. change (emits (snapCalledWith (dataProvider o) (dataProviderArgs o) PyNone)
                                 (generateNodes fuel o numNodes nodeDistrib nodeDistribArgs)).
    assert (Hother : forall A (m : M A),
               emits (fun ev => is_snap ev = false) m ->
               emits (snapCalledWith (dataProvider o) (dataProviderArgs o) PyNone) m).
    { intros A m. apply emits_weaken. intros [] Hev; simpl; first [exact I | discriminate Hev]. }
    unfold generateNodes, print.
    apply emits_bind; [apply emits_call; intros v; exact I | intros [[valFlag errorMsg] warningMsg]].
    destruct valFlag; simpl.
    - apply emits_bind; [| intros _].
      + destruct (VRV_SETTING_SHOWWARNINGMESSAGE && negb (String.eqb warningMsg EmptyString));
          [apply emits_call; intros v; exact I | auto with emits].
      + apply emits_bind; [| intros [locs |]].
        * unfold generateNodes_locs.
          destruct (tag_is nodeDistrib "uniformBB");
            [| destruct (tag_is nodeDistrib "normal");
               [destruct (contains nodeDistribArgs "boundingRegion")
               | destruct (tag_is nodeDistrib "normalBB");
                 [| destruct (tag_is nodeDistrib "unifRoadBasedBB")]]];
            simpl;
            repeat first
              [ solve [auto with emits]
              | solve [apply roadBased_snapCalledWith]
              | solve [apply Hother; eapply emits_weaken;
                       [| first [ apply uniformBounded_calls | apply normal_calls
                                | apply normalBounded_calls ]];
                       intros [] Hev; simpl; first [reflexivity | discriminate Hev]]
              | apply emits_bind; [| intros ?] ].
        * apply emits_bind; [apply emits_call; intros v; exact I | intros nodes].
          auto with emits.
        * auto with emits.
    - apply emits_bind; [apply emits_call; intros v; exact I | intros _; auto with emits]. }
  intros args res Hin. rewrite Forall_forall in Hall. exact (Hall _ Hin).
Qed.

Lemma after_messages_quiet fuel o numNodes nodeDistrib nodeDistribArgs :
  emits (fun ev => is_print ev = false)
    (locs <- generateNodes_locs fuel o numNodes nodeDistrib nodeDistribArgs ;;
     match locs with
     | None => raise (UnboundLocalError "locs")
     | Some locs =>
         nodes <- call (fun _ => EvCreateNodes locs) (privCreateNodesFromLocs locs o) ;;
         ret (Some nodes)
     end).
Proof.
  apply emits_bind; [| intros [locs |]].
  - eapply emits_weaken; [| apply generateNodes_locs_calls].
    intros ev Hev. apply samplerCalls_not_bookkeeping in Hev as (_ & Hev & _). exact Hev.
  - apply emits_bind; [apply emits_call; intros v; reflexivity | intros nodes].
    auto with emits.
  - auto with emits.
Qed.

(** X19. What [generateNodes] prints, however it ends.  Right after the
    validation it prints one message at most: the error message when the
    validation failed, and then nothing else happens; otherwise the
    warning, when warnings are switched on and the warning is not the
    empty string.  Nothing is printed after that: the samplers and the
    node construction print nothing. *)
Theorem generateNodes_prints fuel o numNodes nodeDistrib nodeDistribArgs
    (g : G) valFlag errorMsg warningMsg gv r g' t :
  valGenerateNodes o numNodes nodeDistrib nodeDistribArgs g
  = (Ret (valFlag, errorMsg, warningMsg), gv) ->
  generateNodes fuel o numNodes nodeDistrib nodeDistribArgs g = (r, g', t) ->
  exists t',
    t = EvValidate
        :: printedAfterValidation VRV_SETTING_SHOWWARNINGMESSAGE valFlag errorMsg warningMsg
        ++ t'
    /\ count_events is_print t' = 0%nat
    /\ (valFlag = false -> t' = []).
Proof.
  intros Hval H. unfold generateNodes in H.
  apply bind_inv in H as [(v & g1 & t1 & t2 & Hc & H & ->) | [(e & Hc & _) | (Hc & _)]];
    apply call_inv in Hc as (Hc & Ht); rewrite Hval in Hc; [| discriminate Hc ..].
  injection Hc as E1 E2. subst v g1 t1.
  unfold printedAfterValidation. destruct valFlag; simpl in H |- *.
  - apply bind_inv in H as [(u & gw & tw & t3 & Hw & H & ->) | [(e & Hw & _) | (Hw & _)]].
    + exists t3. split; [| split; [| discriminate]].
      * f_equal. f_equal.
        destruct (VRV_SETTING_SHOWWARNINGMESSAGE && negb (String.eqb warningMsg EmptyString)).
        -- unfold print in Hw. apply call_inv in Hw as (_ & ->). reflexivity.
        -- apply ret_inv in Hw as (_ & _ & ->). reflexivity.
      * apply count_events_none. eapply after_messages_quiet. exact H.
    + destruct (VRV_SETTING_SHOWWARNINGMESSAGE && negb (String.eqb warningMsg EmptyString));
        [unfold print in Hw; apply call_inv in Hw as (Hw & _) |]; discriminate Hw.
    + destruct (VRV_SETTING_SHOWWARNINGMESSAGE && negb (String.eqb warningMsg EmptyString));
        [unfold print in Hw; apply call_inv in Hw as (Hw & _) |]; discriminate Hw.
  - exists []. split; [| split; [reflexivity | reflexivity]].
    apply bind_inv in H as [(u & gp & tp & t3 & Hp & H & ->) | [(e & Hp & _) | (Hp & _)]];
      unfold print in Hp; apply call_inv in Hp as (Hp & Htp); [| discriminate Hp ..].
    unfold ret in H. injection H as _ _ <-. subst tp. reflexivity.
Qed.
End FurtherEdges.

(** ** Runs in the concrete world *)

Module Examples.
Import Demo.

(** The three vertices of the first ear of the square. *)
Example triangle_run :
  exists locs,
    _genNodesUniformTriangle (C:=accepting) 2 [[0; 0]; [0; 1]; [1; 1]]%float 0%nat
    = (Ret locs, 4%nat, [EvUniform 0 1; EvUniform 0 1; EvUniform 0 1; EvUniform 0 1])
    /\ length locs = 2%nat.
Proof. eexists. split; vm_compute; reflexivity. Qed.

(** C1, on runs: three nodes from each sampler. *)
Lemma samplers_return_numNodes_witness :
  (exists locs g' t,
      _genNodesUniformBounded (C:=accepting) 3 square 0%nat = (Ret locs, g', t)
      /\ Z.of_nat (length locs) = 3)
  /\ (exists locs g' t,
         _genNodesNormal (C:=accepting) 3 centre 0.25 0%nat = (Ret locs, g', t)
         /\ Z.of_nat (length locs) = 3)
  /\ (exists locs g' t,
         _genNodesNormalBounded (C:=accepting) 5 3 square centre 0.5 0%nat = (Ret locs, g', t)
         /\ Z.of_nat (length locs) = 3)
  /\ (exists locs g' t,
         _genNodesRoadBased (C:=accepting) 5 3 square 0.25 (PyStr "OSRM-online") PyNone PyNone 0%nat
         = (Ret locs, g', t)
         /\ Z.of_nat (length locs) = 3).
Proof.
  destruct (samplers_return_numNodes (C:=accepting) 3 ltac:(lia)) as (HU & HN & HB & HR).
  repeat split.
  - eexists _, _, _. split; [vm_compute; reflexivity |].
    eapply (HU square 0%nat). vm_compute. reflexivity.
  - eexists _, _, _. split; [vm_compute; reflexivity |].
    eapply (HN centre 0.25%float 0%nat). vm_compute. reflexivity.
  - eexists _, _, _. split; [vm_compute; reflexivity |].
    eapply (HB 5%nat square centre 0.5%float 0%nat). vm_compute. reflexivity.
  - eexists _, _, _. split; [vm_compute; reflexivity |].
    eapply (HR 5%nat square 0.25%float (PyStr "OSRM-online") PyNone PyNone 0%nat).
    vm_compute. reflexivity.
Defined.

(** C2, on a run in which two draws fall outside the square and are
    drawn again. *)
Lemma normalBounded_points_inside_witness :
  exists locs g' t,
    _genNodesNormalBounded (C:=accepting) 5 6 square centre 0.5 0%nat = (Ret locs, g', t)
    /\ length t = 16%nat
    /\ forall p, p ∈ locs ->
         geoIsPointInPoly (Collaborators:=accepting) p square = true
         /\ exists rndUniform rndNormal,
              p = geoPointInDistance2D (Collaborators:=accepting) centre rndUniform rndNormal.
Proof.
  eexists _, _, _. split; [vm_compute; reflexivity |]. split; [reflexivity |].
  eapply (normalBounded_points_inside (C:=accepting) 5 6 square centre 0.5%float 0%nat).
  vm_compute. reflexivity.
Defined.

(** C3, on a run of three rounds. *)
Lemma roadBased_keeps_close_candidates_witness :
  exists locs g' t,
    _genNodesRoadBased (C:=accepting) 5 4 square 0.25 (PyStr "OSRM-online") PyNone PyNone 0%nat
    = (Ret locs, g', t)
    /\ count_events is_snap t = 3%nat
    /\ locs = acceptedOfTrace (C:=accepting) 0.25 t
    /\ forall p, p ∈ locs ->
         exists newLocs snapLocs (i : nat) s,
           EvSnap [PyLocs newLocs; PyStr "OSRM-online"; PyNone; PyNone] (Ret snapLocs) ∈ t
           /\ newLocs !! i = Some p
           /\ snapLocs !! i = Some s
           /\ (geoDistance2D (Collaborators:=accepting) p s <=? 0.25)%float = true.
Proof.
  eexists _, _, _. split; [vm_compute; reflexivity |]. split; [reflexivity |].
  eapply (roadBased_keeps_close_candidates (C:=accepting) 5 4 square 0.25%float
           (PyStr "OSRM-online") PyNone PyNone 0%nat).
  vm_compute. reflexivity.
Defined.

(** C4, on a run: the two points are the transforms of the first four
    numbers of the tape. *)
Lemma uniformTriangle_is_barycentric_witness :
  exists ps,
    uniformPairs (C:=accepting) 2 0%nat ps 4%nat
    /\ Forall (fun r => (fst r <? 0)%float = false) ps
    /\ [barycentricLoc 0 0 0 1 1 1 (0.25, 0.5); barycentricLoc 0 0 0 1 1 1 (0.8125, 0.0625)]%float
       = map (barycentricLoc 0 0 0 1 1 1) ps
    /\ [EvUniform 0 1; EvUniform 0 1; EvUniform 0 1; EvUniform 0 1]
       = concat (replicate (Z.to_nat 2) [EvUniform 0 1; EvUniform 0 1]).
Proof.
  eapply (proj1 (uniformTriangle_is_barycentric (C:=accepting) 2 0 0 0 1 1 1 0%nat _ _ _)).
  vm_compute. reflexivity.
Defined.

(** C5, on a run whose picks answer 0, 1 and 0: the first and the third
    point are drawn in the first triangle of the square, the second in
    the other. *)
Lemma uniformBounded_triangulates_once_witness :
  exists locs g' t,
    _genNodesUniformBounded (C:=accepting) 3 square 0%nat = (Ret locs, g', t)
    /\ count_events is_earclip t = 1%nat
    /\ exists lstTriangle lstArea,
         tripy_earclip (Collaborators:=accepting) square = Ret lstTriangle
         /\ triangleAreas (C:=accepting) lstTriangle 0%nat = (Ret lstArea, 0%nat, [])
         /\ pickedPoints (C:=accepting) lstTriangle lstArea (Z.to_nat 3) 0%nat locs g'
         /\ t = batchTrace square lstArea (Z.to_nat 3)
         /\ count_events is_pick t = Z.to_nat 3.
Proof.
  eexists _, _, _. split; [vm_compute; reflexivity |].
  edestruct (uniformBounded_triangulates_once (C:=accepting) 3 square 0%nat)
    as (Honce & _ & Hret).
  - vm_compute. reflexivity.
  - split; [exact Honce |]. apply Hret. reflexivity.
Defined.

(** C7, on three runs.  One returns after three rounds of four, two and
    one candidates.  One is refused by the adapter of the specification in
    its first round, after the four candidates were drawn.  One finds no
    candidate near the road and uses up its budget of three rounds, each
    of two candidates. *)
Lemma roadBased_rounds_draw_what_is_missing_witness :
  (exists locs g' t,
      _genNodesRoadBased (C:=accepting) 5 4 square 0.25 (PyStr "OSRM-online") PyNone PyNone 0%nat
      = (Ret locs, g', t)
      /\ count_events is_pick t = 7%nat
      /\ exists rs rest,
           t = concat (map (roundTrace square (PyStr "OSRM-online") PyNone PyNone) rs) ++ rest
           /\ roundsFrom (C:=accepting) 4 0.25 [] rs
           /\ Forall (fun r =>
                let tr := roundTrace square (PyStr "OSRM-online") PyNone PyNone r in
                count_events is_pick tr = length (candidates r)
                /\ count_events is_earclip tr = 1%nat
                /\ count_events is_snap tr = 1%nat) rs
           /\ rest = []
           /\ locs = concat (map (roundAccepted (C:=accepting) 0.25) rs))
  /\ (exists g' t,
         _genNodesRoadBased (C:=contractual) 5 4 square 0.25 (PyStr "OSRM-online") PyNone PyNone
           0%nat
         = (Raise TypeError, g', t)
         /\ count_events is_pick t = 4%nat
         /\ exists rs rest,
              t = concat (map (roundTrace square (PyStr "OSRM-online") PyNone PyNone) rs) ++ rest
              /\ roundsFrom (C:=contractual) 4 0.25 [] rs
              /\ Forall (fun r =>
                   let tr := roundTrace square (PyStr "OSRM-online") PyNone PyNone r in
                   count_events is_pick tr = length (candidates r)
                   /\ count_events is_earclip tr = 1%nat
                   /\ count_events is_snap tr = 1%nat) rs
              /\ Z.of_nat (length (concat (map (roundAccepted (C:=contractual) 0.25) rs))) < 4
              /\ cutShort square (PyStr "OSRM-online") PyNone PyNone
                   (Z.to_nat
                      (4 - Z.of_nat
                             (length (concat (map (roundAccepted (C:=contractual) 0.25) rs)))))
                   rest)
  /\ (exists g' t,
         _genNodesRoadBased (C:=Variants.farRoad) 3 2 square 0.25 (PyStr "OSRM-online") PyNone
           PyNone 0%nat
         = (Timeout, g', t)
         /\ count_events is_pick t = 6%nat
         /\ count_events is_snap t = 3%nat
         /\ exists rs rest,
              t = concat (map (roundTrace square (PyStr "OSRM-online") PyNone PyNone) rs) ++ rest
              /\ roundsFrom (C:=Variants.farRoad) 2 0.25 [] rs
              /\ Forall (fun r =>
                   let tr := roundTrace square (PyStr "OSRM-online") PyNone PyNone r in
                   count_events is_pick tr = length (candidates r)
                   /\ count_events is_earclip tr = 1%nat
                   /\ count_events is_snap tr = 1%nat) rs
              /\ Z.of_nat (length (concat (map (roundAccepted (C:=Variants.farRoad) 0.25) rs)))
                 < 2
              /\ cutShort square (PyStr "OSRM-online") PyNone PyNone
                   (Z.to_nat
                      (2 - Z.of_nat
                             (length
                                (concat (map (roundAccepted (C:=Variants.farRoad) 0.25) rs)))))
                   rest).
Proof.
  split; [| split].
  - eexists _, _, _. split; [vm_compute; reflexivity |]. split; [reflexivity |].
    eapply (roadBased_rounds_draw_what_is_missing (C:=accepting) 5 4 square 0.25%float
              (PyStr "OSRM-online") PyNone PyNone 0%nat (Ret _)).
    vm_compute. reflexivity.
  - eexists _, _. split; [vm_compute; reflexivity |]. split; [reflexivity |].
    eapply (roadBased_rounds_draw_what_is_missing (C:=contractual) 5 4 square 0.25%float
              (PyStr "OSRM-online") PyNone PyNone 0%nat (Raise TypeError)).
    vm_compute. reflexivity.
  - eexists _, _. split; [vm_compute; reflexivity |]. split; [reflexivity |].
    split; [reflexivity |].
    eapply (roadBased_rounds_draw_what_is_missing (C:=Variants.farRoad) 3 2 square 0.25%float
              (PyStr "OSRM-online") PyNone PyNone 0%nat Timeout).
    vm_compute. reflexivity.
Defined.


(** C8, as the specification has it, fails: an unsupported tag is refused
    by validation, and the call ends without an exception: it returns
    [None] after printing the message. *)
Lemma generateNodes_invalid_raises_nothing :
  knownDistribs = dispatched
  /\ validate_known options 4 (Some "poisson") bag 0%nat
     = (Ret (false, "Error: nodeDistrib is not a valid option.", EmptyString), 0%nat)
  /\ generateNodes (C:=accepting) 5 options 4 (Some "poisson") bag 0%nat
     = (Ret None, 0%nat, [EvValidate; EvPrint "Error: nodeDistrib is not a valid option."])
  /\ forall msg g' t,
       generateNodes (C:=accepting) 5 options 4 (Some "poisson") bag 0%nat
       <> (Raise (ConfigurationError msg), g', t).
Proof.
  split; [reflexivity |]. split; [vm_compute; reflexivity |].
  assert (Hrun : generateNodes (C:=accepting) 5 options 4 (Some "poisson") bag 0%nat
                 = (Ret None, 0%nat,
                    [EvValidate; EvPrint "Error: nodeDistrib is not a valid option."]))
    by (vm_compute; reflexivity).
  split; [exact Hrun |]. intros msg g' t. rewrite Hrun. discriminate.
Qed.

(** C8 on that run. *)
Lemma generateNodes_invalid_prints_and_returns_witness :
  exists t,
    generateNodes (C:=accepting) 5 options 4 (Some "poisson") bag 0%nat = (Ret None, 0%nat, t)
    /\ t = [EvValidate; EvPrint "Error: nodeDistrib is not a valid option."]
    /\ count_events is_sampling t = 0%nat
    /\ count_events is_create t = 0%nat.
Proof.
  apply (generateNodes_invalid_prints_and_returns (C:=accepting) 5 options 4 (Some "poisson") bag
           0%nat "Error: nodeDistrib is not a valid option." EmptyString 0%nat).
  vm_compute. reflexivity.
Defined.

(** C9 on the example bag, which holds all four keys. *)
Lemma normal_with_region_is_normalBB_witness :
  generateNodes (C:=accepting) 5 options 3 (Some "normal") bag 0%nat
  = generateNodes (C:=accepting) 5 options 3 (Some "normalBB") bag 0%nat
  /\ generateNodes_locs (C:=accepting) 5 options 3 (Some "normal") bag 0%nat
     = (locs <- _genNodesNormalBounded (C:=accepting) 5 3 square centre 0.25 ;; ret (Some locs))%py
         0%nat.
Proof.
  destruct (normal_with_region_is_normalBB (C:=accepting) 5 options 3 bag) as (_ & Hgen & Hcall).
  - vm_compute. reflexivity.
  - split.
    + apply Hgen. vm_compute. reflexivity.
    + apply Hcall; vm_compute; reflexivity.
Defined.

(** C10 in the world whose validator lets every tag through. *)
Lemma generateNodes_unknown_tag_unbound_witness :
  (exists t,
      generateNodes (C:=unchecked) 5 options 3 (Some "poisson") bag 0%nat
      = (Raise (UnboundLocalError "locs"), 0%nat, t)
      /\ count_events is_sampling t = 0%nat
      /\ count_events is_create t = 0%nat)
  /\ (forall g' t,
         generateNodes_locs (C:=unchecked) 5 options 3 (Some "normal") bag 0%nat
         <> (Ret None, g', t)).
Proof.
  split.
  - apply (proj1 (generateNodes_unknown_tag_unbound (C:=unchecked) 5 options 3
                    (Some "poisson") bag) eq_refl
             0%nat EmptyString "Warning: inputs were not checked." 0%nat).
    vm_compute. reflexivity.
  - apply (proj2 (generateNodes_unknown_tag_unbound (C:=unchecked) 5 options 3
                    (Some "normal") bag) eq_refl 0%nat).
Defined.

(** The tape never fails on a non-negative scale. *)
Lemma _genNodesNormal_returns_witness :
  exists locs g' t,
    _genNodesNormal (C:=accepting) 3 centre 0.25 7%nat = (Ret locs, g', t)
    /\ length locs = Z.to_nat 3.
Proof.
  apply (_genNodesNormal_returns (C:=accepting) 3 centre 0.25%float 7%nat).
  - intros g0. eexists _, _. reflexivity.
  - intros g0. eexists _, _. reflexivity.
Defined.
End Examples.


(** ** Further runs in the concrete worlds *)

Module EdgeRuns.
Import Demo Variants.

(** X3 on a run of three nodes. *)
Lemma normal_is_offset_of_draws_witness :
  exists locs g' t,
    _genNodesNormal (C:=accepting) 3 centre 0.25 0%nat = (Ret locs, g', t)
    /\ exists ps,
         normalPairs (C:=accepting) 0.25 (Z.to_nat 3) 0%nat ps g'
         /\ locs = map (offsetLoc (C:=accepting) centre) ps
         /\ t = concat (replicate (Z.to_nat 3) (normalDraws 0.25)).
Proof.
  eexists _, _, _. split; [vm_compute; reflexivity |].
  eapply (proj1 (normal_is_offset_of_draws (C:=accepting) 3 centre 0.25%float 0%nat _ _ _)).
  vm_compute. reflexivity.
Defined.

(** X4 where every point is inside, with no budget at all. *)
Lemma normalBounded_all_inside_is_normal_witness :
  _genNodesNormalBounded (C:=everywhere) 0 3 square centre 0.5 0%nat
  = _genNodesNormal (C:=everywhere) 3 centre 0.5 0%nat.
Proof.
  apply (normalBounded_all_inside_is_normal (C:=everywhere) 0 3 square centre 0.5%float 0%nat).
  intros p. reflexivity.
Defined.

(** X5 on the empty polygon, which ray casting finds no point in. *)
Lemma normalBounded_none_inside_never_returns_witness :
  (forall fuel g locs g' t,
      _genNodesNormalBounded (C:=accepting) fuel 2 [] centre 0.25 g <> (Ret locs, g', t))
  /\ (forall fuel g, exists g' t,
         _genNodesNormalBounded (C:=accepting) fuel 2 [] centre 0.25 g = (Timeout, g', t)).
Proof.
  destruct (normalBounded_none_inside_never_returns (C:=accepting) 2 [] centre 0.25%float)
    as [Hnever Hout].
  - lia.
  - intros [| x [| y p]]; reflexivity.
  - split; [exact Hnever |]. apply Hout.
    + intros g0. eexists _, _. reflexivity.
    + intros g0. eexists _, _. reflexivity.
Defined.

(** X6 on a run with two rejected points. *)
Lemma normalBounded_draws_in_pairs_witness :
  exists locs g' t,
    _genNodesNormalBounded (C:=accepting) 5 6 square centre 0.5 0%nat = (Ret locs, g', t)
    /\ length t = 16%nat
    /\ exists rejected : nat,
         t = concat (replicate (Z.to_nat 6 + rejected) (normalDraws 0.5))
         /\ count_events is_uniform t = (Z.to_nat 6 + rejected)%nat
         /\ count_events is_normal t = (Z.to_nat 6 + rejected)%nat.
Proof.
  eexists _, _, _. split; [vm_compute; reflexivity |]. split; [reflexivity |].
  eapply (normalBounded_draws_in_pairs (C:=accepting) 5 6 square centre 0.5%float 0%nat).
  vm_compute. reflexivity.
Defined.

(** X7 on the square, cut in two triangles of area one half. *)
Lemma uniformBounded_points_from_triangles_witness :
  exists locs g' t,
    _genNodesUniformBounded (C:=accepting) 3 square 0%nat = (Ret locs, g', t)
    /\ exists lstTriangle lstArea,
         tripy_earclip (Collaborators:=accepting) square = Ret lstTriangle
         /\ Forall2 (fun tri w => weightOf (C:=accepting) tri = Some w) lstTriangle lstArea
         /\ t = batchTrace square lstArea (Z.to_nat 3)
         /\ forall p, p ∈ locs -> exists tri, tri ∈ lstTriangle /\ sampledIn tri p.
Proof.
  eexists _, _, _. split; [vm_compute; reflexivity |].
  eapply (uniformBounded_points_from_triangles (C:=accepting) 3 square 0%nat).
  vm_compute. reflexivity.
Defined.

(** X8 where the triangulation is empty and the pick answers 0. *)
Lemma uniformBounded_no_triangle_witness :
  (forall g locs g' t,
      _genNodesUniformBounded (C:=noTriangle) 2 square g <> (Ret locs, g', t))
  /\ _genNodesUniformBounded (C:=noTriangle) 2 square 0%nat
     = (Raise IndexError, 1%nat, [EvEarclip square; EvRandomPick []]).
Proof.
  destruct (uniformBounded_no_triangle (C:=noTriangle) 2 square eq_refl ltac:(lia))
    as [Hnever Hraise].
  split; [exact Hnever |]. apply (Hraise 0%nat 0 1%nat). reflexivity.
Defined.

(** X9: one vertex only; then three vertices, the second with an
    altitude. *)
Lemma uniformTriangle_needs_three_pairs_witness :
  _genNodesUniformTriangle (C:=accepting) 4 [[0; 0]]%float 0%nat = (Raise IndexError, 0%nat, [])
  /\ _genNodesUniformTriangle (C:=accepting) 4 [[0; 0]; [0; 1; 120]; [1; 1]]%float 0%nat
     = (Raise ValueError, 0%nat, []).
Proof.
  split.
  - apply (proj1 (uniformTriangle_needs_three_pairs (C:=accepting) 4 [[0; 0]]%float 0%nat)).
    + simpl. lia.
    + repeat constructor.
  - apply (proj2 (uniformTriangle_needs_three_pairs (C:=accepting) 4
                    [[0; 0]; [0; 1; 120]; [1; 1]]%float 0%nat)
             [0; 0]%float [0; 1; 120]%float [1; 1]%float eq_refl eq_refl eq_refl).
    right. left. simpl. lia.
Defined.

(** X10 with the adapter that answers with one coordinate too many. *)
Lemma roadBased_long_answer_IndexError_witness :
  exists g' t,
    _genNodesRoadBased (C:=talkative) 1 2 square 0.25 (PyStr "OSRM-online") PyNone PyNone 0%nat
    = (Raise IndexError, g', t)
    /\ count_events is_snap t = 1%nat.
Proof.
  eexists _, _. split.
  - eapply (roadBased_long_answer_IndexError (C:=talkative) 0 2 square 0.25%float
              (PyStr "OSRM-online") PyNone PyNone 0%nat).
    + lia.
    + vm_compute. reflexivity.
    + vm_compute. reflexivity.
    + simpl. lia.
  - reflexivity.
Defined.

(** X11 with a threshold that the whole square meets. *)
Lemma roadBased_one_round_when_all_close_witness :
  exists newLocs g' t,
    _genNodesUniformBounded (C:=accepting) 3 square 0%nat = (Ret newLocs, 9%nat, t)
    /\ exists snapped,
         _genNodesRoadBased (C:=accepting) 1 3 square 1 (PyStr "OSRM-online") PyNone PyNone 0%nat
         = (Ret newLocs, g',
            t ++ [EvSnap [PyLocs newLocs; PyStr "OSRM-online"; PyNone; PyNone] (Ret snapped)]).
Proof.
  eexists _, _, _. split; [vm_compute; reflexivity |]. eexists.
  eapply (roadBased_one_round_when_all_close (C:=accepting) 0 3 square 1%float
            (PyStr "OSRM-online") PyNone PyNone 0%nat).
  - lia.
  - vm_compute. reflexivity.
  - vm_compute. reflexivity.
  - repeat (constructor; [vm_compute; reflexivity |]). constructor.
Defined.

(** X12 with a road out of reach. *)
Lemma roadBased_none_close_never_returns_witness :
  0 < 2
  /\ forall fuel g locs g' t,
       _genNodesRoadBased (C:=farRoad) fuel 2 square 0.25 (PyStr "OSRM-online") PyNone PyNone g
       <> (Ret locs, g', t).
Proof.
  split; [lia |]. intros fuel g locs g' t.
  apply (roadBased_none_close_never_returns (C:=farRoad) fuel 2 square 0.25%float
           (PyStr "OSRM-online") PyNone PyNone g locs g' t).
  - lia.
  - intros c s. reflexivity.
Defined.

(** X13: ['normalBB'] on a bag without ['center']. *)
Lemma generateNodes_missing_key_witness :
  exists t,
    generateNodes (C:=accepting) 5 options 3 (Some "normalBB") bagNoCenter 0%nat
    = (Raise (KeyError "center"), 0%nat, t)
    /\ count_events is_sampling t = 0%nat
    /\ count_events is_create t = 0%nat.
Proof.
  apply (generateNodes_missing_key (C:=accepting) 5 options 3 (Some "normalBB") bagNoCenter
           0%nat EmptyString EmptyString 0%nat "center").
  - vm_compute. reflexivity.
  - vm_compute. reflexivity.
Defined.

(** X14 on a call that returns three nodes. *)
Lemma generateNodes_result_witness :
  exists nodes g' t,
    generateNodes (C:=accepting) 5 options 3 (Some "normal") bag 0%nat
    = (Ret (Some nodes), g', t)
    /\ exists errorMsg warningMsg gv locs g1 t0,
         valGenerateNodes (Collaborators:=accepting) options 3 (Some "normal") bag 0%nat
         = (Ret (true, errorMsg, warningMsg), gv)
         /\ is_dispatched (Some "normal") = true
         /\ length locs = Z.to_nat 3
         /\ privCreateNodesFromLocs (Collaborators:=accepting) locs options g1 = (Ret nodes, g')
         /\ t = EvValidate :: t0 ++ [EvCreateNodes locs]
         /\ count_events is_create t = 1%nat
         /\ count_events is_validate t = 1%nat.
Proof.
  eexists _, _, _. split; [vm_compute; reflexivity |].
  eapply (generateNodes_result (C:=accepting) 5 options 3 (Some "normal") bag 0%nat (Some _)).
  vm_compute. reflexivity.
Defined.

(** X15 on a call with ['normalBB']. *)
Lemma generateNodes_calls_by_tag_witness :
  exists r g' t,
    generateNodes (C:=accepting) 5 options 3 (Some "normalBB") bag 0%nat = (r, g', t)
    /\ count_events is_normal t = 3%nat
    /\ count_events is_snap t = 0%nat
    /\ count_events is_earclip t = 0%nat
    /\ count_events is_pick t = 0%nat.
Proof.
  eexists _, _, _. split; [vm_compute; reflexivity |]. split; [reflexivity |].
  edestruct (generateNodes_calls_by_tag (C:=accepting) 5 options 3 (Some "normalBB") bag 0%nat)
    as (Hsnap & Hclip & _).
  - vm_compute. reflexivity.
  - split; [apply Hsnap; reflexivity | apply Hclip; reflexivity].
Defined.

(** X16 on one coordinate. *)
Lemma createNodesFromLocs_result_witness :
  exists r g' t,
    createNodesFromLocs (C:=plain) [centre] options 0%nat = (r, g', t)
    /\ r = Ret (Some [centre])
    /\ (count_events is_create t <= 1)%nat
    /\ (forall locs', EvCreateNodes locs' ∈ t -> locs' = [centre])
    /\ last t = Some (EvCreateNodes [centre]).
Proof.
  eexists _, _, _. split; [vm_compute; reflexivity |]. split; [reflexivity |].
  edestruct (createNodesFromLocs_result (C:=plain) [centre] options 0%nat)
    as (Hcount & Honly & _ & Hsome).
  - vm_compute. reflexivity.
  - split; [exact Hcount |]. split; [exact Honly |].
    destruct (Hsome [centre] eq_refl) as (e & w & gv & _ & _ & Hlast). exact Hlast.
Defined.
(** X17 with the count [-2]. *)
Lemma samplers_nonpositive_count_witness :
  _genNodesNormal (C:=accepting) (-2) centre 0.25 0%nat = (Ret [], 0%nat, [])
  /\ _genNodesNormalBounded (C:=accepting) 0 (-2) square centre 0.25 0%nat = (Ret [], 0%nat, [])
  /\ _genNodesRoadBased (C:=accepting) 0 (-2) square 0.25 (PyStr "OSRM-online") PyNone PyNone
       0%nat
     = (Ret [], 0%nat, [])
  /\ (forall r g' t,
        _genNodesUniformBounded (C:=accepting) (-2) square 0%nat = (r, g', t) ->
        t = [EvEarclip square] /\ (forall locs, r = Ret locs -> locs = [])).
Proof.
  apply (samplers_nonpositive_count (C:=accepting) 0 (-2) square centre 0.25%float 0.25%float
           (PyStr "OSRM-online") PyNone PyNone 0%nat).
  lia.
Defined.

(** X18 on a call with ['unifRoadBasedBB']. *)
Lemma generateNodes_adapter_arguments_witness :
  exists r g' t,
    generateNodes (C:=accepting) 5 options 4 (Some "unifRoadBasedBB") bag 0%nat = (r, g', t)
    /\ (0 < count_events is_snap t)%nat
    /\ forall args res,
         EvSnap args res ∈ t ->
         exists newLocs,
           args = [PyLocs newLocs; PyStr "OSRM-online"; PyDict [("APIkey", "k")]; PyNone].
Proof.
  eexists _, _, _. split; [vm_compute; reflexivity |]. split; [vm_compute; lia |].
  eapply (generateNodes_adapter_arguments (C:=accepting) 5 options 4 (Some "unifRoadBasedBB")
            bag 0%nat).
  vm_compute. reflexivity.
Defined.

(** X19 where the validation passes with a warning. *)
Lemma generateNodes_prints_witness :
  exists r g' t,
    generateNodes (C:=unchecked) 5 options 3 (Some "normal") bag 0%nat = (r, g', t)
    /\ exists t',
         t = EvValidate :: EvPrint "Warning: inputs were not checked." :: t'
         /\ count_events is_print t' = 0%nat.
Proof.
  eexists _, _, _. split; [vm_compute; reflexivity |].
  edestruct (generateNodes_prints (C:=unchecked) 5 options 3 (Some "normal") bag 0%nat)
    as (t' & Ht & Hquiet & _).
  - vm_compute. reflexivity.
  - vm_compute. reflexivity.
  - exists t'. split; [exact Ht | exact Hquiet].
Defined.
End EdgeRuns.
